(** * InputValidator: a shallow embedding of [src/InputValidator.ts]

    The validator is a mutable object bound to one input element.  Its
    methods are embedded as computations in a state-and-exception monad over
    the object's fields; the regular expressions of [isAlpha] and [isEmail]
    are kept as regular-expression terms and run by a derivative matcher.

    Conventions.
    - A JavaScript string is a [string]; every [ascii] of a field value
      stands for one UTF-16 code unit in the range 0..255, so [String.length]
      is [.length].  Message texts are only stored and compared; the Russian
      ones are kept as the bytes of the source file.
    - A JavaScript number is a [Z] (the rule bounds are integers; NaN and
      fractions are outside the model).  Lengths are below 2^53, so a
      comparison with them is the comparison of the integers; where a
      number is printed, it is the Number value of the integer that is.
    - The rule set has the three keys of [IValidatorRules], in the order of
      the class's default object. *)

From Stdlib Require Import ZArith List String Ascii Bool Lia DecimalString.
Import ListNotations.
Open Scope string_scope.
Open Scope Z_scope.

(** ** JavaScript values *)

Module Js.

(** Primitive values, as far as the validator can observe them. *)
Inductive value : Type :=
| Undefined
| Null
| Bool (b : bool)
| Number (z : Z)
| Str (s : string).

(** [ToBoolean]. *)
Definition truthy (v : value) : bool :=
  match v with
  | Undefined | Null => false
  | Bool b => b
  | Number z => negb (z =? 0)
  | Str s => negb (String.eqb s "")
  end.

(** [typeof v === 'string'], returning the string when it is one. *)
Definition as_string (v : value) : option string :=
  match v with
  | Str s => Some s
  | _ => None
  end.

(** [v === true]. *)
Definition is_true (v : value) : bool :=
  match v with
  | Bool true => true
  | _ => false
  end.

(** The Number value of an integer [x > 0]: the nearest double, ties to the
    even significand.  Integers below 2^53 are their own Number value. *)
Definition to_double (x : Z) : Z :=
  let e := Z.log2 x - 52 in
  if e <=? 0 then x
  else
    let q := Z.shiftr x e in
    let r := x - Z.shiftl q e in
    let half := Z.shiftl 1 (e - 1) in
    Z.shiftl
      (if (half <? r) || ((r =? half) && Z.odd q) then q + 1 else q) e.

(** The decimal digits of [x >= 0]. *)
Definition digits (x : Z) : string :=
  NilZero.string_of_uint (N.to_uint (Z.to_N x)).

(** The shortest decimal [s * 10^p] whose Number value is the double [v] of
    [d] digits, looking at [k], [k + 1], ... significant digits; of two
    candidates the closer one, and the even one when they are as close. *)
Fixpoint shortest (fuel : nat) (k d v : Z) : Z * Z :=
  match fuel with
  | O => (v, 0)
  | S fuel' =>
      let p := d - k in
      if p <=? 0 then (v, 0)
      else
        let scale := 10 ^ p in
        let lo := v / scale in
        let hi := lo + 1 in
        let lo_ok := to_double (lo * scale) =? v in
        let hi_ok := to_double (hi * scale) =? v in
        let below := v - lo * scale in
        let above := hi * scale - v in
        if lo_ok && hi_ok then
          if (below <? above) || ((below =? above) && Z.even lo)
          then (lo, p) else (hi, p)
        else if lo_ok then (lo, p)
        else if hi_ok then (hi, p)
        else shortest fuel' (k + 1) d v
  end.

(** [s * 10^p] with the zeros at the end of [s] moved into [p]. *)
Fixpoint strip_zeros (fuel : nat) (s p : Z) : Z * Z :=
  match fuel with
  | O => (s, p)
  | S fuel' =>
      if (s mod 10 =? 0) && negb (s =? 0)
      then strip_zeros fuel' (s / 10) (p + 1)
      else (s, p)
  end.

Definition zeros (n : Z) : string :=
  string_of_list_ascii (repeat "0"%char (Z.to_nat n)).

(** [Number::toString] of the double [v >= 2^53]: the digits of the
    shortest decimal, filled up with zeros while the number has at most 21
    digits, in exponent notation from [1e21] on. *)
Definition double_to_string (v : Z) : string :=
  let d := Z.of_nat (String.length (digits v)) in
  let '(s, p) := shortest 17 1 d v in
  let '(s, p) := strip_zeros 20 s p in
  let k := Z.of_nat (String.length (digits s)) in
  let n := k + p in
  if n <=? 21 then digits s ++ zeros p
  else
    match digits s with
    | String c rest =>
        String c (if String.eqb rest "" then "" else "." ++ rest)
        ++ "e+" ++ digits (n - 1)
    | EmptyString => ""
    end.

(** [`${n}`] for the Number value of an integer [n]. *)
Definition number_to_string (z : Z) : string :=
  let x := Z.abs z in
  (if z <? 0 then "-" else "")
  ++ (if x <? 2 ^ 53 then digits x
      else
        let v := to_double x in
        if 2 ^ 1024 <=? v then "Infinity" else double_to_string v).

(** [`${x}`] for an [x] that is a number or [undefined]. *)
Definition to_string (x : option Z) : string :=
  match x with
  | Some n => number_to_string n
  | None => "undefined"
  end.

(** What a [throw] carries: [new Error(msg)] or an engine [TypeError]. *)
Inductive exn : Type :=
| Error (msg : string)
| TypeError.

(** Canonical array index strings: ["0"], ["1"], ... without leading
    zeros. *)
Definition array_index (key : string) : option nat :=
  match NilZero.uint_of_string key with
  | Some u =>
      let i := Nat.of_uint u in
      if String.eqb (NilZero.string_of_uint (Nat.to_uint i)) key
      then Some i else None
  | None => None
  end.

(** Property names every array inherits from [Array.prototype] and
    [Object.prototype]. *)
Definition array_inherited : list string :=
  [ "constructor"; "at"; "concat"; "copyWithin"; "fill"; "find";
    "findIndex"; "findLast"; "findLastIndex"; "lastIndexOf"; "pop";
    "push"; "reverse"; "shift"; "unshift"; "slice"; "sort"; "splice";
    "includes"; "indexOf"; "join"; "keys"; "entries"; "values";
    "forEach"; "filter"; "flat"; "flatMap"; "map"; "every"; "some";
    "reduce"; "reduceRight"; "toLocaleString"; "toString"; "toReversed";
    "toSorted"; "toSpliced"; "with"; "hasOwnProperty"; "isPrototypeOf";
    "propertyIsEnumerable"; "valueOf"; "__proto__"; "__defineGetter__";
    "__defineSetter__"; "__lookupGetter__"; "__lookupSetter__" ].

(** [key in arr] for an array [arr]: an index below its length, ["length"],
    or an inherited property.  The elements of the array play no part. *)
Definition in_array {A : Type} (key : string) (arr : list A) : bool :=
  match array_index key with
  | Some i => (i <? List.length arr)%nat
  | None => false
  end
  || String.eqb key "length"
  || existsb (String.eqb key) array_inherited.

End Js.

(** ** Regular expressions *)

Module RegExp.

(** Patterns over code units.  A pattern here is always anchored by [^] and
    [$] and has no [m] flag, so [test] is a match of the whole string. *)
Inductive pattern : Type :=
| Void
| Eps
| Class (p : ascii -> bool)
| Seq (r1 r2 : pattern)
| Alt (r1 r2 : pattern)
| Star (r : pattern).

(** [r+] *)
Definition Plus (r : pattern) : pattern := Seq r (Star r).

Fixpoint nullable (r : pattern) : bool :=
  match r with
  | Void => false
  | Eps => true
  | Class _ => false
  | Seq r1 r2 => nullable r1 && nullable r2
  | Alt r1 r2 => nullable r1 || nullable r2
  | Star _ => true
  end.

Fixpoint deriv (c : ascii) (r : pattern) : pattern :=
  match r with
  | Void => Void
  | Eps => Void
  | Class p => if p c then Eps else Void
  | Seq r1 r2 =>
      if nullable r1
      then Alt (Seq (deriv c r1) r2) (deriv c r2)
      else Seq (deriv c r1) r2
  | Alt r1 r2 => Alt (deriv c r1) (deriv c r2)
  | Star r1 => Seq (deriv c r1) (Star r1)
  end.

Fixpoint matches (r : pattern) (w : list ascii) : bool :=
  match w with
  | [] => nullable r
  | c :: w' => matches (deriv c r) w'
  end.

(** [/^r$/.test(s)] *)
Definition test (r : pattern) (s : string) : bool :=
  matches r (list_ascii_of_string s).

(** The words of a pattern. *)
Inductive lang : pattern -> list ascii -> Prop :=
| lang_eps : lang Eps []
| lang_class p c : p c = true -> lang (Class p) [c]
| lang_seq r1 r2 u v : lang r1 u -> lang r2 v -> lang (Seq r1 r2) (u ++ v)
| lang_alt_l r1 r2 u : lang r1 u -> lang (Alt r1 r2) u
| lang_alt_r r1 r2 u : lang r2 u -> lang (Alt r1 r2) u
| lang_star_nil r : lang (Star r) []
| lang_star_cons r u v :
    lang r u -> lang (Star r) v -> lang (Star r) (u ++ v).

(** *** Character classes of the two patterns of the validator *)

Definition code (c : ascii) : N := N_of_ascii c.

Definition in_range (lo hi : ascii) (c : ascii) : bool :=
  ((code lo <=? code c) && (code c <=? code hi))%N.

(** [Canonicalize] under the [i] flag without [u]: the code unit of
    [toUpperCase].  Below 128 that moves [a-z] onto [A-Z]; a code unit from
    128 on is never mapped below 128, so it is left in place here. *)
Definition canonicalize (c : ascii) : ascii :=
  if in_range "a" "z" c then ascii_of_N (code c - 32) else c.

(** [[lo-hi]] under the [i] flag, for a range of lower-case letters. *)
Definition range_i (lo hi : ascii) (c : ascii) : bool :=
  in_range (canonicalize lo) (canonicalize hi) (canonicalize c).

(** [\s] on code units 0..255: TAB, LF, VT, FF, CR, SPACE and NBSP. *)
Definition white_space (c : ascii) : bool :=
  existsb (N.eqb (code c)) [9; 10; 11; 12; 13; 32; 160]%N.

Definition is_char (d : ascii) (c : ascii) : bool := Ascii.eqb c d.

(** [[^\s@]] *)
Definition not_space_at (c : ascii) : bool :=
  negb (white_space c || is_char "@" c).

(** [/^[a-z]*$/gi].  The literal is evaluated at each call of [isAlpha], so
    the [lastIndex] the [g] flag keeps is always 0 when [test] runs. *)
Definition alpha_re : pattern := Star (Class (range_i "a" "z")).

(** [/^[^\s@]+@[^\s@]+\.[^\s@]+$/] *)
Definition email_re : pattern :=
  Seq (Plus (Class not_space_at))
    (Seq (Class (is_char "@"))
       (Seq (Plus (Class not_space_at))
          (Seq (Class (is_char "."))
             (Plus (Class not_space_at))))).

End RegExp.

(** ** Data model *)

(** [ILangObject] *)
Record ILangObject : Type := { EN : string; RU : string }.

(** [IValidatorSettings.currentLanguage] *)
Inductive Language : Type := LangEN | LangRU.

(** [obj[currentLanguage]] *)
Definition select (obj : ILangObject) (l : Language) : string :=
  match l with
  | LangEN => EN obj
  | LangRU => RU obj
  end.

(** [IErrorTextMessages].  A formatter of [hasLength] is handed whatever the
    bound of the rule holds: a number, or [undefined] when it is absent. *)
Module IErrorTextMessages.
Record hasLength_t : Type :=
  { min : option Z -> ILangObject;
    max : option Z -> ILangObject;
    exact : option Z -> ILangObject }.
Record t : Type :=
  { hasLength : hasLength_t;
    isAlpha : unit -> ILangObject;
    isEmail : unit -> ILangObject }.
End IErrorTextMessages.

(** The message table of the module. *)
Definition errorTextMessages : IErrorTextMessages.t :=
  {| IErrorTextMessages.hasLength :=
       {| IErrorTextMessages.min := fun minLength =>
            {| EN := "Should be more than or equal to "
                       ++ Js.to_string minLength ++ " symbols";
               RU := "Количество символов должно быть больше или равно "
                       ++ Js.to_string minLength |};
          IErrorTextMessages.max := fun maxLength =>
            {| EN := "Should be no more than "
                       ++ Js.to_string maxLength ++ " symbols";
               RU := "Количество символов не должно превышать "
                       ++ Js.to_string maxLength |};
          IErrorTextMessages.exact := fun exactLength =>
            {| EN := "Should be exactly "
                       ++ Js.to_string exactLength ++ " symbols";
               RU := "Количество символов должно точно равняться "
                       ++ Js.to_string exactLength |} |};
     IErrorTextMessages.isAlpha := fun _ =>
       {| EN := "Should contain only alphabetic letters"; RU := "" |};
     IErrorTextMessages.isEmail := fun _ =>
       {| EN := "Incorrect email address";
          RU := "Неверный адрес электронной почты" |} |}.

(** [enum ValidatorRules] *)
Module ValidatorRules.
Inductive t : Type := hasLength | isAlpha | isEmail.

(** The string value of a member, which is also the name of the method. *)
Definition name (r : t) : string :=
  match r with
  | hasLength => "hasLength"
  | isAlpha => "isAlpha"
  | isEmail => "isEmail"
  end.
End ValidatorRules.

(** The object configuring [hasLength]; a bound that is absent reads as
    [undefined]. *)
Record LengthRule : Type :=
  { min : option Z; max : option Z; exact : option Z }.

(** The value of a rule entry (its type is [any]). *)
Inductive RuleValue : Type :=
| Prim (v : Js.value)
| Length (c : LengthRule).

Definition rule_truthy (rv : RuleValue) : bool :=
  match rv with
  | Prim v => Js.truthy v
  | Length _ => true
  end.

(** [IValidatorRules]: one entry per member of the enum. *)
Module IValidatorRules.
Record t : Type :=
  { hasLength : RuleValue; isAlpha : RuleValue; isEmail : RuleValue }.

(** [Partial<IValidatorRules>]: [None] is a key that is not there. *)
Record partial : Type :=
  { hasLength_opt : option RuleValue;
    isAlpha_opt : option RuleValue;
    isEmail_opt : option RuleValue }.
End IValidatorRules.

(** [Object.entries(rules)], in the key order of the default rule object. *)
Definition Object_entries (r : IValidatorRules.t)
  : list (ValidatorRules.t * RuleValue) :=
  [ (ValidatorRules.hasLength, IValidatorRules.hasLength r);
    (ValidatorRules.isAlpha, IValidatorRules.isAlpha r);
    (ValidatorRules.isEmail, IValidatorRules.isEmail r) ].

(** An entry of the error list. *)
Record ErrorEntry : Type := { checkName : string; message : string }.

(** The part of [HTMLInputElement] the validator touches: [value] and
    [dataset.isValid]. *)
Record HTMLInputElement : Type :=
  { value : Js.value; dataset_isValid : option string }.

Section Validator.

(** The state of the collaborator that supplies the finish callback. *)
Context {W : Type}.

(** [IValidatorHandlers]: the callback acts on the collaborator's state. *)
Record IValidatorHandlers : Type :=
  { onValidationFinish : list ErrorEntry -> W -> W }.

Record IValidatorSettings : Type := { currentLanguage : Language }.

(** The fields of an [InputValidator] instance. *)
Record InputValidator : Type :=
  { input : option HTMLInputElement;
    validatorRules : IValidatorRules.t;
    validatorHandlers : IValidatorHandlers;
    validatorSettings : IValidatorSettings;
    errors : list ErrorEntry }.

(** [Object.keys(this)]: the own fields, in declaration order. *)
Definition Object_keys_this (_ : InputValidator) : list string :=
  [ "input"; "validatorRules"; "validatorHandlers"; "validatorSettings";
    "errors" ].

(** The instance together with the collaborator's state. *)
Record Heap : Type := { this : InputValidator; world : W }.

(** *** Computations: state and exceptions *)

Definition M (A : Type) : Type := Heap -> (Js.exn + A) * Heap.

Definition ret {A} (a : A) : M A := fun h => (inr a, h).

Definition bind {A B} (m : M A) (k : A -> M B) : M B :=
  fun h =>
    match m h with
    | (inr a, h') => k a h'
    | (inl e, h') => (inl e, h')
    end.

Definition throw {A} (e : Js.exn) : M A := fun h => (inl e, h).

Definition gets {A} (f : InputValidator -> A) : M A :=
  fun h => (inr (f (this h)), h).

Definition modify (f : InputValidator -> InputValidator) : M unit :=
  fun h => (inr tt, {| this := f (this h); world := world h |}).

Definition call_handler (es : list ErrorEntry) : M unit :=
  fun h =>
    (inr tt,
     {| this := this h;
        world := onValidationFinish (validatorHandlers (this h)) es
                   (world h) |}).

End Validator.

Arguments IValidatorHandlers : clear implicits.
Arguments InputValidator : clear implicits.
Arguments Heap : clear implicits.
Arguments M : clear implicits.

Declare Scope js_scope.
Delimit Scope js_scope with js.
Notation "x <- m ;; k" := (bind m (fun x => k))
  (at level 61, m at next level, right associativity) : js_scope.
Notation "m ;; k" := (bind m (fun _ => k))
  (at level 61, right associativity) : js_scope.

(** ** The class *)

Section Methods.

Context {W : Type}.
Local Open Scope js_scope.

Local Abbreviation M := (M W).
Local Abbreviation InputValidator := (InputValidator W).

(** The default field values and the constructor, which spreads each
    argument over its default. *)
Definition default_rules : IValidatorRules.t :=
  {| IValidatorRules.hasLength :=
       Length {| min := Some 0; max := Some 0; exact := Some 0 |};
     IValidatorRules.isAlpha := Prim (Js.Bool false);
     IValidatorRules.isEmail := Prim (Js.Bool false) |}.

Definition override {A} (given : option A) (default : A) : A :=
  match given with
  | Some a => a
  | None => default
  end.

Definition new_InputValidator
    (input : option HTMLInputElement)
    (validatorRules : IValidatorRules.partial)
    (validatorHandlers : option (IValidatorHandlers W))
    (validatorSettings : option IValidatorSettings) : InputValidator :=
  {| input := input;
     validatorRules :=
       {| IValidatorRules.hasLength :=
            override (IValidatorRules.hasLength_opt validatorRules)
              (IValidatorRules.hasLength default_rules);
          IValidatorRules.isAlpha :=
            override (IValidatorRules.isAlpha_opt validatorRules)
              (IValidatorRules.isAlpha default_rules);
          IValidatorRules.isEmail :=
            override (IValidatorRules.isEmail_opt validatorRules)
              (IValidatorRules.isEmail default_rules) |};
     validatorHandlers :=
       override validatorHandlers
         {| onValidationFinish := fun _ w => w |};
     validatorSettings :=
       override validatorSettings {| currentLanguage := LangEN |};
     errors := [] |}.

(** [get isValid] *)
Definition isValid (v : InputValidator) : bool :=
  (List.length (errors v) =? 0)%nat.

(** [get validationErrors] *)
Definition validationErrors (v : InputValidator) : list ErrorEntry :=
  errors v.

Definition set_errors (es : list ErrorEntry) (v : InputValidator)
  : InputValidator :=
  {| input := input v;
     validatorRules := validatorRules v;
     validatorHandlers := validatorHandlers v;
     validatorSettings := validatorSettings v;
     errors := es |}.

Definition set_dataset_isValid (s : string) (v : InputValidator)
  : InputValidator :=
  {| input :=
       match input v with
       | Some i => Some {| value := value i; dataset_isValid := Some s |}
       | None => None
       end;
     validatorRules := validatorRules v;
     validatorHandlers := validatorHandlers v;
     validatorSettings := validatorSettings v;
     errors := errors v |}.

(** [this.errors.push({ checkName, message })] *)
Definition _addError (checkName message : string) : M unit :=
  modify (fun v =>
    set_errors
      (errors v ++ [{| checkName := checkName; message := message |}]) v).

(** [this.errors = this.errors.filter(e => e.checkName !== checkName)] *)
Definition _validateCheck (name : string) : M unit :=
  modify (fun v =>
    set_errors
      (filter (fun error => negb (String.eqb (checkName error) name))
         (errors v)) v).

(** The guard every public method opens with; it hands back
    [this.input.value]. *)
Definition input_value : M string :=
  i <- gets input ;;
  match i with
  | None => throw (Js.Error "Input value must be type of string")
  | Some el =>
      match Js.as_string (value el) with
      | None => throw (Js.Error "Input value must be type of string")
      | Some s => ret s
      end
  end.

(** [this.validatorRules.hasLength.<bound>]: a [TypeError] on [undefined]
    and [null], [undefined] on any other primitive. *)
Definition bound (sel : LengthRule -> option Z) : M (option Z) :=
  rv <- gets (fun v => IValidatorRules.hasLength (validatorRules v)) ;;
  match rv with
  | Length c => ret (sel c)
  | Prim Js.Undefined | Prim Js.Null => throw Js.TypeError
  | Prim _ => ret None
  end.

(** [len < b], [len > b], [len !== b] and [!!+b] for a bound that may be
    [undefined]. *)
Definition lt_bound (len : Z) (b : option Z) : bool :=
  match b with Some n => len <? n | None => false end.
Definition gt_bound (len : Z) (b : option Z) : bool :=
  match b with Some n => n <? len | None => false end.
Definition neq_bound (len : Z) (b : option Z) : bool :=
  match b with Some n => negb (len =? n) | None => true end.
Definition is_set (b : option Z) : bool :=
  match b with Some n => negb (n =? 0) | None => false end.

(** [.length] of a string, as a number. *)
Definition str_length (s : string) : Z := Z.of_nat (String.length s).

(** [hasLength()], over the message table it reads. *)
Definition hasLength_with (messages : IErrorTextMessages.t) : M unit :=
  s <- input_value ;;
  let methodName := "hasLength" in
  lo <- bound min ;;
  if lt_bound (str_length s) lo then
    lang <- gets (fun v => currentLanguage (validatorSettings v)) ;;
    _addError methodName
      (select
         (IErrorTextMessages.min (IErrorTextMessages.hasLength messages) lo)
         lang)
  else
    hi <- bound max ;;
    if is_set hi && gt_bound (str_length s) hi then
      _addError methodName
        ("Should be no more than " ++ Js.to_string hi ++ " symbols")
    else
      ex <- bound exact ;;
      if is_set ex && neq_bound (str_length s) ex then
        _addError methodName
          ("Should be exactly " ++ Js.to_string ex ++ " symbols")
      else
        _validateCheck methodName.

Definition hasLength : M unit := hasLength_with errorTextMessages.

(** [isAlpha()] *)
Definition isAlpha : M unit :=
  s <- input_value ;;
  let methodName := "isAlpha" in
  if negb (RegExp.test RegExp.alpha_re s) then
    _addError methodName "Should contain only alphabetic letters"
  else
    _validateCheck methodName.

(** [isEmail()] *)
Definition isEmail : M unit :=
  s <- input_value ;;
  let methodName := "isEmail" in
  if negb (RegExp.test RegExp.email_re s) then
    _addError methodName "Incorrect email address"
  else
    _validateCheck methodName.

(** [customCheck(fn, checkName, errorMessage)]; an argument left out takes
    its default. *)
Definition customCheck
    (fn : option (string -> Js.value))
    (checkName errorMessage : option string) : M unit :=
  let fn := override fn (fun _ => Js.Bool true) in
  let checkName := override checkName "" in
  let errorMessage := override errorMessage "" in
  s <- input_value ;;
  if String.eqb checkName "" then
    throw (Js.Error "Name for validation check must be specified")
  else if negb (Js.is_true (fn s)) then
    _addError checkName
      (if String.eqb errorMessage ""
       then checkName ++ " check failed" else errorMessage)
  else
    _validateCheck checkName.

(** [this[methodName as ValidatorRules]()] *)
Definition call_method (r : ValidatorRules.t) : M unit :=
  match r with
  | ValidatorRules.hasLength => hasLength
  | ValidatorRules.isAlpha => isAlpha
  | ValidatorRules.isEmail => isEmail
  end.

(** [arr.forEach(f)] *)
Fixpoint forEach {A} (f : A -> M unit) (arr : list A) : M unit :=
  match arr with
  | [] => ret tt
  | a :: rest => f a ;; forEach f rest
  end.

(** [validate()] *)
Definition validate : M unit :=
  _ <- input_value ;;
  rules <- gets validatorRules ;;
  forEach
    (fun '(methodName, methodValue) =>
       if negb (rule_truthy methodValue) then ret tt
       else
         keys <- gets Object_keys_this ;;
         if Js.in_array (ValidatorRules.name methodName) keys
         then call_method methodName
         else ret tt)
    (Object_entries rules) ;;
  modify (fun v =>
    set_dataset_isValid
      (if (List.length (errors v) =? 0)%nat then "Valid" else "Invalid")
      v) ;;
  es <- gets errors ;;
  call_handler es.

(** Running a method: what it returned or threw, and the heap it left. *)
Definition outcome {A} (m : M A) (h : Heap W) : Js.exn + A := fst (m h).
Definition exec {A} (m : M A) (h : Heap W) : Heap W := snd (m h).
Definition errors_after {A} (m : M A) (h : Heap W) : list ErrorEntry :=
  errors (this (exec m h)).

End Methods.

(** ** Vocabulary of the specification *)

Section Vocabulary.

Context {W : Type}.

(** The string the bound field holds; [None] when the field is missing or
    its value is not a string. *)
Definition field_string (v : InputValidator W) : option string :=
  match input v with
  | Some el => Js.as_string (value el)
  | None => None
  end.

(** The heap in which the error list of [h] is replaced by [es]. *)
Definition with_errors (es : list ErrorEntry) (h : Heap W) : Heap W :=
  {| this := set_errors es (this h); world := world h |}.

(** The entries of [es] that belong to other checks than [name]. *)
Definition without (name : string) (es : list ErrorEntry)
  : list ErrorEntry :=
  filter (fun e => negb (String.eqb (checkName e) name)) es.

(** The names of the checks with an entry in the list. *)
Definition checkNames (es : list ErrorEntry) : list string :=
  map checkName es.

(** The heap in which [currentLanguage] is [l]. *)
Definition with_language (l : Language) (h : Heap W) : Heap W :=
  {| this :=
       {| input := input (this h);
          validatorRules := validatorRules (this h);
          validatorHandlers := validatorHandlers (this h);
          validatorSettings := {| currentLanguage := l |};
          errors := errors (this h) |};
     world := world h |}.

End Vocabulary.

(** An entry of the error list. *)
Definition entry (name msg : string) : ErrorEntry :=
  {| checkName := name; message := msg |}.

(** The error list one run of [hasLength] leaves, read off the branches of
    the method: the first bound that fails decides. *)
Definition hasLength_errors (messages : IErrorTextMessages.t)
    (l : Language) (c : LengthRule) (len : Z) (es : list ErrorEntry)
  : list ErrorEntry :=
  if lt_bound len (min c) then
    es ++ [entry "hasLength"
             (select
                (IErrorTextMessages.min
                   (IErrorTextMessages.hasLength messages) (min c)) l)]
  else if is_set (max c) && gt_bound len (max c) then
    es ++ [entry "hasLength"
             ("Should be no more than " ++ Js.to_string (max c)
              ++ " symbols")]
  else if is_set (exact c) && neq_bound len (exact c) then
    es ++ [entry "hasLength"
             ("Should be exactly " ++ Js.to_string (exact c)
              ++ " symbols")]
  else without "hasLength" es.

(** The conditions under which [hasLength] moves on to the next bound: the
    length is not below [min]; [max] is not set or the length is not above
    it; [exact] is not set or the length is equal to it. *)
Definition min_holds (c : LengthRule) (len : Z) : Prop :=
  forall m, min c = Some m -> m <= len.
Definition max_holds (c : LengthRule) (len : Z) : Prop :=
  forall M, max c = Some M -> M = 0 \/ len <= M.
Definition exact_holds (c : LengthRule) (len : Z) : Prop :=
  forall E, exact c = Some E -> E = 0 \/ len = E.

(** The two usage errors the methods throw. *)
Definition not_a_string : Js.exn :=
  Js.Error "Input value must be type of string".
Definition name_missing : Js.exn :=
  Js.Error "Name for validation check must be specified".

(** The three messages of [hasLength]. *)
Definition too_short (n : Z) (l : Language) : string :=
  select
    (IErrorTextMessages.min (IErrorTextMessages.hasLength errorTextMessages)
       (Some n)) l.
Definition too_long (n : Z) : string :=
  "Should be no more than " ++ Js.number_to_string n ++ " symbols".
Definition wrong_exact_length (n : Z) : string :=
  "Should be exactly " ++ Js.number_to_string n ++ " symbols".

(** [^[A-Za-z]*$] in the words of the specification. *)
Definition ascii_letter (c : ascii) : bool :=
  RegExp.in_range "A" "Z" c || RegExp.in_range "a" "z" c.
Definition only_letters (s : string) : bool :=
  forallb ascii_letter (list_ascii_of_string s).

(** "text@text.text with no whitespace or extra @" in the words of the
    specification: a text is not empty and holds neither white space nor
    ["@"]. *)
Definition text (t : string) : Prop :=
  t <> "" /\
  forall c, In c (list_ascii_of_string t) ->
            RegExp.white_space c = false /\ c <> "@"%char.
Definition email_shaped (s : string) : Prop :=
  exists a b c, s = a ++ "@" ++ b ++ "." ++ c /\ text a /\ text b /\ text c.

(** ** Validators to run the methods on *)

Module Fixture.

(** A collaborator that keeps every list the finish callback received. *)
Definition log : Type := list (list ErrorEntry).
Definition logging : IValidatorHandlers log :=
  {| onValidationFinish := fun es w => (w ++ [es])%list |}.

Definition field (v : Js.value) : option HTMLInputElement :=
  Some {| value := v; dataset_isValid := None |}.

Definition no_rules : IValidatorRules.partial :=
  {| IValidatorRules.hasLength_opt := None;
     IValidatorRules.isAlpha_opt := None;
     IValidatorRules.isEmail_opt := None |}.

Definition length_rule (lo hi ex : option Z) : IValidatorRules.partial :=
  {| IValidatorRules.hasLength_opt :=
       Some (Length {| min := lo; max := hi; exact := ex |});
     IValidatorRules.isAlpha_opt := None;
     IValidatorRules.isEmail_opt := None |}.

Definition alpha_rule : IValidatorRules.partial :=
  {| IValidatorRules.hasLength_opt := None;
     IValidatorRules.isAlpha_opt := Some (Prim (Js.Bool true));
     IValidatorRules.isEmail_opt := None |}.

(** [new InputValidator(el, rules, { onValidationFinish }, { currentLanguage })]
    next to an empty log. *)
Definition fresh (el : option HTMLInputElement)
    (rules : IValidatorRules.partial) (l : Language) : Heap log :=
  {| this :=
       new_InputValidator el rules (Some logging)
         (Some {| currentLanguage := l |});
     world := [] |}.

End Fixture.

(** ** Repeated runs and edits of the field *)

Section Scenarios.

Context {W : Type}.
Local Open Scope js_scope.

(** [n] calls of a method in a row. *)
Fixpoint times (n : nat) (m : M W unit) : M W unit :=
  match n with
  | O => ret tt
  | S k => m ;; times k m
  end.

(** The heap after the user has typed [s] into the bound field. *)
Definition with_value (s : string) (h : Heap W) : Heap W :=
  {| this :=
       {| input :=
            match input (this h) with
            | Some el =>
                Some {| value := Js.Str s;
                        dataset_isValid := dataset_isValid el |}
            | None => None
            end;
          validatorRules := validatorRules (this h);
          validatorHandlers := validatorHandlers (this h);
          validatorSettings := validatorSettings (this h);
          errors := errors (this h) |};
     world := world h |}.

(** The heap in which the [hasLength] entry of the rule set is [rv]. *)
Definition with_length_rule (rv : RuleValue) (h : Heap W) : Heap W :=
  {| this :=
       {| input := input (this h);
          validatorRules :=
            {| IValidatorRules.hasLength := rv;
               IValidatorRules.isAlpha :=
                 IValidatorRules.isAlpha (validatorRules (this h));
               IValidatorRules.isEmail :=
                 IValidatorRules.isEmail (validatorRules (this h)) |};
          validatorHandlers := validatorHandlers (this h);
          validatorSettings := validatorSettings (this h);
          errors := errors (this h) |};
     world := world h |}.

(** [dataset.isValid] of the bound field. *)
Definition marker (v : InputValidator W) : option string :=
  match input v with
  | Some el => dataset_isValid el
  | None => None
  end.

(** What one call of a check named [name] can do to the heap: throw and
    leave it alone, push one entry under [name], or drop the entries of
    [name]. *)
Definition check_shape (name : string) (m : M W unit) : Prop :=
  forall h,
    (exists e, m h = (inl e, h))
    \/ (exists msg,
           m h
           = (inr tt,
              with_errors (errors (this h) ++ [entry name msg]) h))
    \/ m h = (inr tt, with_errors (without name (errors (this h))) h).

End Scenarios.

(** The bounds of a rule with every absent bound written as 0. *)
Definition zero_absent (c : LengthRule) : LengthRule :=
  {| min := Some (match min c with Some n => n | None => 0 end);
     max := Some (match max c with Some n => n | None => 0 end);
     exact := Some (match exact c with Some n => n | None => 0 end) |}.

(** A bound that is absent or 0. *)
Definition unset (b : option Z) : Prop := b = None \/ b = Some 0.

(** ** The form: [AuthForm/AuthForm.tsx] *)

Module AuthForm.

(** A [Map] or a plain object with string keys, as the list of its entries.
    The components look entries up by key and count the values; nothing
    they do depends on the order of the keys. *)
Definition dict (A : Type) : Type := list (string * A).

(** [map.get(k)], [obj[k]] *)
Fixpoint get {A} (k : string) (d : dict A) : option A :=
  match d with
  | [] => None
  | (k', v) :: rest => if String.eqb k' k then Some v else get k rest
  end.

(** [map.set(k, v)] and [{ ...obj, [k]: v }]: the entry of a key that is
    there is overwritten, a new key is added. *)
Fixpoint set {A} (k : string) (v : A) (d : dict A) : dict A :=
  match d with
  | [] => [(k, v)]
  | (k', v') :: rest =>
      if String.eqb k' k then (k, v) :: rest else (k', v') :: set k v rest
  end.

Definition keys {A} (d : dict A) : list string := map fst d.

(** *** [useForm] *)

(** [e.target.name] and [e.target.value] of a change event. *)
Record ChangeEvent : Type :=
  { target_name : string; target_value : string }.

(** [handleChange]: [values.set(e.target.name, e.target.value)]. *)
Definition handleChange (e : ChangeEvent) (values : dict string)
  : dict string :=
  set (target_name e) (target_value e) values.

(** The change events handled one after the other, oldest first. *)
Definition handleChanges (es : list ChangeEvent) (values : dict string)
  : dict string :=
  fold_left (fun m e => handleChange e m) es values.

(** The value of the latest event for the field [name]. *)
Definition last_change (name : string) (es : list ChangeEvent)
  : option string :=
  option_map target_value
    (find (fun e => String.eqb (target_name e) name) (rev es)).

(** *** [AuthForm] *)

(** The [errors] state of the form: the error list of each field, by the
    name of the field. *)
Definition FormErrors : Type := dict (list ErrorEntry).

(** The handler [initValidator] gives the validator of the input called
    [name]: [setErrors(prev => ({ ...prev, [input.name]: errors }))]. *)
Definition onValidationFinish_of (name : string)
  : IValidatorHandlers FormErrors :=
  {| onValidationFinish := fun errors prevErrors => set name errors prevErrors |}.

(** [Record<string, unknown>], the rule object an input of the form is
    given. *)
Definition rule_object : Type := dict RuleValue.

(** The keys of [IValidatorRules]. *)
Definition rule_names : list string :=
  map ValidatorRules.name
    [ValidatorRules.hasLength; ValidatorRules.isAlpha; ValidatorRules.isEmail].

(** Every key of the rule object is the name of a rule. *)
Definition known_keys (r : rule_object) : bool :=
  forallb (fun k => existsb (String.eqb k) rule_names) (keys r).

(** A rule object with known keys, as the constructor takes it. *)
Definition as_partial (r : rule_object) : IValidatorRules.partial :=
  {| IValidatorRules.hasLength_opt := get "hasLength" r;
     IValidatorRules.isAlpha_opt := get "isAlpha" r;
     IValidatorRules.isEmail_opt := get "isEmail" r |}.

(** [initValidator(input, validationRules)], with [input.name] at its
    side; [currentLanguage] is the state of the form.  The constructor
    spreads every key of the rule object into the rule set, and
    [validate()] looks each of them up in the array of own keys.  A key
    that is no rule name may be found there (["length"], ["0"]), and the
    call of a method the validator does not have then throws: the rule set
    of the validator has no room for such a key, and [None] stands for the
    validator of such a rule object. *)
Definition initValidator (currentLanguage : Language) (name : string)
    (input : HTMLInputElement) (validationRules : rule_object)
  : option (InputValidator FormErrors) :=
  if known_keys validationRules then
    Some
      (new_InputValidator (Some input) (as_partial validationRules)
         (Some (onValidationFinish_of name))
         (Some {| currentLanguage := currentLanguage |}))
  else None.

(** The [onBlur] of an input whose validator is in place, after the user
    has left [s] in the field: [validator.validate()]. *)
Definition blur (s : string) (h : Heap FormErrors) : Heap FormErrors :=
  exec validate (with_value s h).

(** The field left with each of the values in turn. *)
Definition blurs (ss : list string) (h : Heap FormErrors)
  : Heap FormErrors :=
  fold_left (fun h' s => blur s h') ss h.

(** [errors[name]?.[0]?.message], the message an input shows. *)
Definition validationErrorMessage (errors : FormErrors) (name : string)
  : option string :=
  match get name errors with
  | Some (e :: _) => Some (message e)
  | _ => None
  end.

(** A validator made by [initValidator] and only ever validated keeps an
    empty error list and its handler. *)
Definition untouched (name : string) (h : Heap FormErrors) : Prop :=
  errors (this h) = []
  /\ validatorHandlers (this h) = onValidationFinish_of name
  /\ input (this h) <> None.

(** *** [SubmitButton] *)

(** [!Object.values(errors).flat().length] *)
Definition isAllInputsValid (errors : FormErrors) : bool :=
  (List.length (List.concat (map snd errors)) =? 0)%nat.

(** *** [PasswordInput] *)

(** The [type] of the element [passwordField] refers to ([None] for a ref
    that is still [null]) and the [isPasswordVisible] state. *)
Record PasswordState : Type :=
  { passwordField : option string; isPasswordVisible : bool }.

Definition revealPassword (st : PasswordState) : PasswordState :=
  match passwordField st with
  | None => st
  | Some _ => {| passwordField := Some "text"; isPasswordVisible := true |}
  end.

Definition hidePassword (st : PasswordState) : PasswordState :=
  match passwordField st with
  | None => st
  | Some _ =>
      {| passwordField := Some "password"; isPasswordVisible := false |}
  end.

Definition togglePasswordVisibility (st : PasswordState) : PasswordState :=
  match passwordField st with
  | None => st
  | Some type =>
      if String.eqb type "password" then revealPassword st
      else hidePassword st
  end.

(** [n] clicks on the label. *)
Fixpoint clicks (n : nat) (st : PasswordState) : PasswordState :=
  match n with
  | O => st
  | S k => clicks k (togglePasswordVisibility st)
  end.

(** The input as it is mounted: [type="password"], not visible. *)
Definition mounted : PasswordState :=
  {| passwordField := Some "password"; isPasswordVisible := false |}.

End AuthForm.

(** ** The matcher decides membership *)

Module RegExpFacts.
Import RegExp.
Local Open Scope list_scope.

Lemma nullable_lang (r : pattern) : nullable r = true <-> lang r [].
Proof.
  split.
  - induction r; simpl; intros H; try discriminate.
    + constructor.
    + apply andb_true_iff in H as [H1 H2].
      change (@nil ascii) with (@nil ascii ++ []). constructor; auto.
    + apply orb_true_iff in H as [H | H].
      * apply lang_alt_l; auto.
      * apply lang_alt_r; auto.
    + constructor.
  - intros H. remember [] as w eqn:Hw.
    induction H; simpl; auto; try discriminate.
    + apply app_eq_nil in Hw as [-> ->].
      rewrite IHlang1, IHlang2; auto.
    + rewrite IHlang; auto.
    + rewrite IHlang, orb_true_r; auto.
Qed.

Lemma deriv_sound (c : ascii) (r : pattern) :
  forall w, lang (deriv c r) w -> lang r (c :: w).
Proof.
  induction r; simpl; intros w H.
  - inversion H.
  - inversion H.
  - destruct (p c) eqn:Hp; inversion H; subst. constructor; exact Hp.
  - destruct (nullable r1) eqn:Hn.
    + inversion H; subst.
      * match goal with
        | Hs : lang (Seq _ _) _ |- _ => inversion Hs; subst
        end.
        change (c :: u ++ v) with ((c :: u) ++ v). constructor; auto.
      * change (c :: w) with ([] ++ c :: w).
        constructor; [apply nullable_lang; exact Hn | auto].
    + inversion H; subst.
      change (c :: u ++ v) with ((c :: u) ++ v). constructor; auto.
  - inversion H; subst.
    + apply lang_alt_l; auto.
    + apply lang_alt_r; auto.
  - inversion H; subst.
    change (c :: u ++ v) with ((c :: u) ++ v). constructor; auto.
Qed.

Lemma deriv_complete (c : ascii) (r : pattern) (x : list ascii) :
  lang r x -> forall w, x = c :: w -> lang (deriv c r) w.
Proof.
  induction 1; intros w Hx; simpl.
  - discriminate.
  - injection Hx as -> <-.
    match goal with Hp : p c = true |- _ => rewrite Hp end. constructor.
  - destruct u as [| a u'].
    + simpl in Hx. subst v.
      match goal with
      | Hu : lang r1 [] |- _ => apply nullable_lang in Hu; rewrite Hu
      end.
      apply lang_alt_r; auto.
    + simpl in Hx. injection Hx as -> <-.
      assert (Hs : lang (Seq (deriv c r1) r2) (u' ++ v))
        by (constructor; auto).
      destruct (nullable r1); [apply lang_alt_l |]; exact Hs.
  - apply lang_alt_l; auto.
  - apply lang_alt_r; auto.
  - discriminate.
  - destruct u as [| a u'].
    + simpl in Hx. apply IHlang2 in Hx. simpl in Hx. exact Hx.
    + simpl in Hx. injection Hx as -> <-.
      constructor; auto.
Qed.

Lemma matches_lang (r : pattern) (w : list ascii) :
  matches r w = true <-> lang r w.
Proof.
  revert r. induction w as [| c w IH]; intros r; simpl.
  - apply nullable_lang.
  - rewrite IH. split.
    + apply deriv_sound.
    + intros H. eapply deriv_complete; eauto.
Qed.

(** [[p]*] and [[p]+] *)

Lemma lang_star_class (p : ascii -> bool) (w : list ascii) :
  lang (Star (Class p)) w <-> forallb p w = true.
Proof.
  split.
  - intros H. remember (Star (Class p)) as r eqn:Hr.
    induction H; try discriminate; auto.
    injection Hr as ->.
    match goal with Hu : lang (Class _) _ |- _ => inversion Hu; subst end.
    simpl. rewrite IHlang2 by reflexivity.
    match goal with Hp : p _ = true |- _ => rewrite Hp end. reflexivity.
  - induction w as [| c w IH]; simpl; intros H.
    + constructor.
    + apply andb_true_iff in H as [Hc Hw].
      change (c :: w) with ([c] ++ w).
      constructor; [constructor; exact Hc | auto].
Qed.

Lemma lang_plus_class (p : ascii -> bool) (w : list ascii) :
  lang (Plus (Class p)) w <-> w <> [] /\ forallb p w = true.
Proof.
  unfold Plus. split.
  - intros H. inversion H; subst.
    match goal with Hu : lang (Class _) _ |- _ => inversion Hu; subst end.
    match goal with
    | Hv : lang (Star _) _ |- _ => apply lang_star_class in Hv
    end.
    simpl. split; [discriminate |].
    apply andb_true_iff; split; assumption.
  - intros [Hne H]. destruct w as [| c w]; [contradiction |].
    simpl in H. apply andb_true_iff in H as [Hc Hw].
    change (c :: w) with ([c] ++ w).
    constructor; [constructor; exact Hc | apply lang_star_class; exact Hw].
Qed.

Lemma lang_char (d : ascii) (w : list ascii) :
  lang (Class (is_char d)) w <-> w = [d].
Proof.
  split.
  - intros H. inversion H; subst.
    unfold is_char in *.
    match goal with He : Ascii.eqb _ _ = true |- _ =>
      apply Ascii.eqb_eq in He; subst end.
    reflexivity.
  - intros ->. constructor. unfold is_char. apply Ascii.eqb_refl.
Qed.

Lemma lang_seq_inv (r1 r2 : pattern) (w : list ascii) :
  lang (Seq r1 r2) w <-> exists u v, w = u ++ v /\ lang r1 u /\ lang r2 v.
Proof.
  split.
  - intros H. inversion H; subst. eauto.
  - intros (u & v & -> & H1 & H2). constructor; auto.
Qed.

End RegExpFacts.

(** ** What the two patterns of the validator accept *)

Module PatternFacts.
Import RegExp RegExpFacts.

Lemma range_i_letter (c : ascii) : range_i "a" "z" c = ascii_letter c.
Proof.
  destruct c as [[] [] [] [] [] [] [] []]; reflexivity.
Qed.

Lemma test_alpha (s : string) : test alpha_re s = only_letters s.
Proof.
  unfold test, only_letters, alpha_re.
  apply eq_true_iff_eq. rewrite matches_lang, lang_star_class.
  induction (list_ascii_of_string s) as [| c w IH]; simpl.
  - reflexivity.
  - rewrite range_i_letter, !andb_true_iff, IH. reflexivity.
Qed.

Lemma list_of_append (a b : string) :
  list_ascii_of_string (a ++ b)
  = (list_ascii_of_string a ++ list_ascii_of_string b)%list.
Proof.
  induction a as [| c a IH]; simpl; [reflexivity | now rewrite IH].
Qed.

Lemma list_of_empty (t : string) : list_ascii_of_string t = [] <-> t = "".
Proof.
  destruct t; simpl; split; intros H; try reflexivity; discriminate.
Qed.

Lemma text_class (t : string) :
  text t <->
  lang (Plus (Class not_space_at)) (list_ascii_of_string t).
Proof.
  rewrite lang_plus_class, forallb_forall. unfold text, not_space_at.
  rewrite list_of_empty. split; intros [Hne H]; split; auto; intros c Hc.
  - destruct (H c Hc) as [Hw Ha]. rewrite Hw. simpl.
    unfold is_char. destruct (Ascii.eqb_spec c "@"); [contradiction | auto].
  - specialize (H c Hc). apply negb_true_iff, orb_false_iff in H as [Hw Ha].
    split; [exact Hw |]. intros ->. unfold is_char in Ha. discriminate.
Qed.

Lemma test_email (s : string) : test email_re s = true <-> email_shaped s.
Proof.
  unfold test, email_re, email_shaped. rewrite matches_lang. split.
  - intros H.
    apply lang_seq_inv in H as (u1 & r1 & E1 & Ha & H).
    apply lang_seq_inv in H as (u2 & r2 & E2 & Hat & H).
    apply lang_seq_inv in H as (u3 & r3 & E3 & Hb & H).
    apply lang_seq_inv in H as (u4 & u5 & E4 & Hdot & Hc).
    apply lang_char in Hat, Hdot. subst u2 u4 r3 r2 r1.
    exists (string_of_list_ascii u1), (string_of_list_ascii u3),
      (string_of_list_ascii u5).
    rewrite !text_class, !list_ascii_of_string_of_list_ascii.
    repeat split; auto.
    rewrite <- (string_of_list_ascii_of_string s), E1.
    rewrite <- (list_ascii_of_string_of_list_ascii u1) at 1.
    rewrite <- (list_ascii_of_string_of_list_ascii u3) at 1.
    rewrite <- (list_ascii_of_string_of_list_ascii u5) at 1.
    change ["@"%char] with (list_ascii_of_string "@").
    change ["."%char] with (list_ascii_of_string ".").
    rewrite <- !list_of_append.
    apply string_of_list_ascii_of_string.
  - intros (a & b & c & -> & Ha & Hb & Hc).
    apply text_class in Ha, Hb, Hc.
    rewrite !list_of_append.
    repeat (constructor; auto);
      unfold is_char; apply Ascii.eqb_refl.
Qed.

End PatternFacts.

(** ** One run of each method *)

Section MethodFacts.

Context {W : Type}.
Implicit Types (h : Heap W) (s name msg : string) (c : LengthRule).

Lemma input_value_run h :
  input_value h =
  match field_string (this h) with
  | Some s => (inr s, h)
  | None => (inl (Js.Error "Input value must be type of string"), h)
  end.
Proof.
  unfold input_value, field_string, bind, gets, throw, ret.
  destruct (input (this h)) as [el |]; [| reflexivity].
  destruct (Js.as_string (value el)); reflexivity.
Qed.

Lemma addError_run name msg h :
  _addError name msg h
  = (inr tt, with_errors (errors (this h) ++ [entry name msg]) h).
Proof. reflexivity. Qed.

Lemma validateCheck_run name h :
  _validateCheck name h
  = (inr tt, with_errors (without name (errors (this h))) h).
Proof. reflexivity. Qed.

Lemma bound_run h c (sel : LengthRule -> option Z) :
  IValidatorRules.hasLength (validatorRules (this h)) = Length c ->
  bound sel h = (inr (sel c), h).
Proof.
  intros Hc. unfold bound, bind, gets, ret. rewrite Hc. reflexivity.
Qed.

Lemma hasLength_with_run messages h s c :
  field_string (this h) = Some s ->
  IValidatorRules.hasLength (validatorRules (this h)) = Length c ->
  hasLength_with messages h
  = (inr tt,
     with_errors
       (hasLength_errors messages
          (currentLanguage (validatorSettings (this h))) c
          (str_length s) (errors (this h))) h).
Proof.
  intros Hs Hc. unfold hasLength_with, hasLength_errors, bind.
  rewrite input_value_run, Hs, (bound_run h c min Hc).
  destruct (lt_bound (str_length s) (min c)); [reflexivity |].
  rewrite (bound_run h c max Hc).
  destruct (is_set (max c) && gt_bound (str_length s) (max c));
    [reflexivity |].
  rewrite (bound_run h c exact Hc).
  destruct (is_set (exact c) && neq_bound (str_length s) (exact c));
    reflexivity.
Qed.

Lemma isAlpha_run h s :
  field_string (this h) = Some s ->
  isAlpha h
  = (inr tt,
     with_errors
       (if only_letters s then without "isAlpha" (errors (this h))
        else errors (this h)
             ++ [entry "isAlpha" "Should contain only alphabetic letters"])
       h).
Proof.
  intros Hs. unfold isAlpha, bind.
  rewrite input_value_run, Hs, PatternFacts.test_alpha.
  destruct (only_letters s); reflexivity.
Qed.

Lemma isEmail_run h s :
  field_string (this h) = Some s ->
  isEmail h
  = (inr tt,
     with_errors
       (if RegExp.test RegExp.email_re s
        then without "isEmail" (errors (this h))
        else errors (this h)
             ++ [entry "isEmail" "Incorrect email address"])
       h).
Proof.
  intros Hs. unfold isEmail, bind. rewrite input_value_run, Hs.
  destruct (RegExp.test RegExp.email_re s); reflexivity.
Qed.

Lemma customCheck_run h s (fn : string -> Js.value) name msg :
  field_string (this h) = Some s ->
  name <> "" ->
  customCheck (Some fn) (Some name) (Some msg) h
  = (inr tt,
     with_errors
       (if Js.is_true (fn s) then without name (errors (this h))
        else errors (this h)
             ++ [entry name
                   (if String.eqb msg "" then name ++ " check failed"
                    else msg)])
       h).
Proof.
  intros Hs Hn. unfold customCheck, bind, override.
  rewrite input_value_run, Hs.
  destruct (String.eqb_spec name ""); [contradiction |].
  destruct (Js.is_true (fn s)); reflexivity.
Qed.

(** No member of the enum is a property of the array of own keys. *)
Lemma rule_name_not_in_keys (r : ValidatorRules.t) (v : InputValidator W) :
  Js.in_array (ValidatorRules.name r) (Object_keys_this v) = false.
Proof. destruct r; reflexivity. Qed.

Lemma forEach_skip {A} (f : A -> M W unit) (arr : list A) :
  (forall a h, In a arr -> f a h = (inr tt, h)) ->
  forall h, forEach f arr h = (inr tt, h).
Proof.
  induction arr as [| a rest IH]; intros Hf h; simpl.
  - reflexivity.
  - unfold bind. rewrite (Hf a h (or_introl eq_refl)).
    apply IH. intros b h' Hb. apply Hf. right. exact Hb.
Qed.

Lemma validate_run h s :
  field_string (this h) = Some s ->
  validate h
  = (inr tt,
     {| this :=
          set_dataset_isValid
            (if (List.length (errors (this h)) =? 0)%nat
             then "Valid" else "Invalid") (this h);
        world :=
          onValidationFinish (validatorHandlers (this h))
            (errors (this h)) (world h) |}).
Proof.
  intros Hs. unfold validate, bind at 1. rewrite input_value_run, Hs.
  unfold bind at 1. unfold gets at 1. unfold bind at 1.
  rewrite forEach_skip; [reflexivity |].
  intros [r rv] h' _. destruct (rule_truthy rv); simpl; [| reflexivity].
  unfold bind, gets. rewrite rule_name_not_in_keys. reflexivity.
Qed.

Lemma validate_throws h :
  field_string (this h) = None ->
  validate h = (inl (Js.Error "Input value must be type of string"), h).
Proof.
  intros Hs. unfold validate, bind at 1. rewrite input_value_run, Hs.
  reflexivity.
Qed.

(** [validate] leaves the error list as it found it. *)
Lemma validate_keeps_errors h :
  errors_after validate h = errors (this h).
Proof.
  unfold errors_after, exec.
  destruct (field_string (this h)) as [s |] eqn:Hs.
  - rewrite (validate_run h s Hs). simpl.
    destruct (input (this h)); reflexivity.
  - rewrite (validate_throws h Hs). reflexivity.
Qed.

Lemma field_string_validate h :
  field_string (this (exec validate h)) = field_string (this h).
Proof.
  unfold exec.
  destruct (field_string (this h)) as [s |] eqn:Hs.
  - rewrite (validate_run h s Hs). simpl. unfold field_string in *. simpl.
    destruct (input (this h)); [exact Hs | discriminate].
  - rewrite (validate_throws h Hs). exact Hs.
Qed.

End MethodFacts.

(** ** The branches of [hasLength] *)

Section HasLengthFacts.

Variables (messages : IErrorTextMessages.t) (l : Language).
Variables (c : LengthRule) (len : Z) (es : list ErrorEntry).

Local Abbreviation min_holds := (min_holds c len).
Local Abbreviation max_holds := (max_holds c len).
Local Abbreviation exact_holds := (exact_holds c len).

Lemma lt_bound_false : min_holds -> lt_bound len (min c) = false.
Proof.
  unfold min_holds, lt_bound. intros H.
  destruct (min c) as [m |]; [| reflexivity].
  specialize (H m eq_refl). apply Z.ltb_ge. exact H.
Qed.

Lemma max_guard_false :
  max_holds -> is_set (max c) && gt_bound len (max c) = false.
Proof.
  unfold max_holds, is_set, gt_bound. intros H.
  destruct (max c) as [M |]; [| reflexivity].
  destruct (H M eq_refl) as [-> | Hle]; [reflexivity |].
  apply andb_false_iff. right. apply Z.ltb_ge. exact Hle.
Qed.

Lemma exact_guard_false :
  exact_holds -> is_set (exact c) && neq_bound len (exact c) = false.
Proof.
  unfold exact_holds, is_set, neq_bound. intros H.
  destruct (exact c) as [E |]; [| reflexivity].
  destruct (H E eq_refl) as [-> | ->]; [reflexivity |].
  rewrite Z.eqb_refl. apply andb_false_r.
Qed.

Lemma hasLength_errors_short (m : Z) :
  min c = Some m -> len < m ->
  hasLength_errors messages l c len es
  = (es ++ [entry "hasLength"
              (select
                 (IErrorTextMessages.min
                    (IErrorTextMessages.hasLength messages) (Some m)) l)])%list.
Proof.
  intros Hm Hlt. unfold hasLength_errors. rewrite Hm. simpl.
  apply Z.ltb_lt in Hlt. rewrite Hlt. reflexivity.
Qed.

Lemma hasLength_errors_long (M : Z) :
  min_holds -> max c = Some M -> M <> 0 -> M < len ->
  hasLength_errors messages l c len es
  = (es ++ [entry "hasLength" (too_long M)])%list.
Proof.
  intros Hmin HM Hnz Hgt. unfold hasLength_errors.
  rewrite (lt_bound_false Hmin), HM. simpl.
  apply Z.eqb_neq in Hnz. apply Z.ltb_lt in Hgt. rewrite Hnz, Hgt.
  reflexivity.
Qed.

Lemma hasLength_errors_exact (E : Z) :
  min_holds -> max_holds -> exact c = Some E -> E <> 0 -> len <> E ->
  hasLength_errors messages l c len es
  = (es ++ [entry "hasLength" (wrong_exact_length E)])%list.
Proof.
  intros Hmin Hmax HE Hnz Hne. unfold hasLength_errors.
  rewrite (lt_bound_false Hmin), (max_guard_false Hmax), HE. simpl.
  apply Z.eqb_neq in Hnz, Hne. rewrite Hnz, Hne. reflexivity.
Qed.

Lemma hasLength_errors_pass :
  min_holds -> max_holds -> exact_holds ->
  hasLength_errors messages l c len es = without "hasLength" es.
Proof.
  intros Hmin Hmax Hex. unfold hasLength_errors.
  rewrite (lt_bound_false Hmin), (max_guard_false Hmax),
    (exact_guard_false Hex).
  reflexivity.
Qed.

Lemma without_length (name : string) :
  (List.length (without name es) <= List.length es)%nat.
Proof. apply filter_length_le. Qed.

Lemma hasLength_errors_grows_by_one :
  (List.length (hasLength_errors messages l c len es)
   <= List.length es + 1)%nat.
Proof.
  unfold hasLength_errors.
  repeat match goal with
         | |- context [if ?b then _ else _] => destruct b
         end;
    rewrite ?length_app; simpl; try lia.
  pose proof (without_length "hasLength"). lia.
Qed.

End HasLengthFacts.

(** ** Guards, filters and the message table *)

Section Auxiliary.

Context {W : Type}.
Implicit Types (h : Heap W).

Lemma guard_throws {A} (k : string -> M W A) h :
  field_string (this h) = None ->
  bind input_value k h = (inl not_a_string, h).
Proof.
  intros Hs. unfold bind. rewrite input_value_run, Hs. reflexivity.
Qed.

Lemma is_true_false (v : Js.value) :
  Js.is_true v = false <-> v <> Js.Bool true.
Proof.
  split.
  - intros H ->. discriminate.
  - intros H. destruct v as [| | [] | |]; try reflexivity. contradiction.
Qed.

Lemma without_absent (name : string) (es : list ErrorEntry) :
  ~ In name (checkNames es) -> without name es = es.
Proof.
  unfold without, checkNames.
  induction es as [| e es IH]; simpl; intros H; [reflexivity |].
  destruct (String.eqb_spec (checkName e) name) as [Heq | _]; simpl.
  - exfalso. apply H. left. exact Heq.
  - rewrite IH; [reflexivity |]. intros Hin. apply H. right. exact Hin.
Qed.

Lemma without_app (name : string) (es fs : list ErrorEntry) :
  without name (es ++ fs) = (without name es ++ without name fs)%list.
Proof. apply filter_app. Qed.

Lemma without_own (name msg : string) :
  without name [entry name msg] = [].
Proof. unfold without. simpl. rewrite String.eqb_refl. reflexivity. Qed.

Lemma hasLength_errors_min_only (t1 t2 : IErrorTextMessages.t)
    (l : Language) (c : LengthRule) (len : Z) (es : list ErrorEntry) :
  IErrorTextMessages.min (IErrorTextMessages.hasLength t1)
  = IErrorTextMessages.min (IErrorTextMessages.hasLength t2) ->
  hasLength_errors t1 l c len es = hasLength_errors t2 l c len es.
Proof. intros H. unfold hasLength_errors. rewrite H. reflexivity. Qed.

End Auxiliary.

(** ** The claims of the specification *)

Module Claims.

Import Fixture.
Local Open Scope js_scope.

(** C1.  [validate()] is meant to run every enabled rule of the rule set.
    On a validator whose [isAlpha] entry is [true] and whose field holds
    ["abc123"], the entry is truthy and [isAlpha()] itself records its
    error, but [validate()] returns with the error list still empty: the
    test [methodName in Object.keys(this)] asks the array of own keys for a
    property called ["isAlpha"], which it does not have, so no rule is ever
    called. *)
Theorem validate_runs_no_enabled_rule :
  let h := fresh (field (Js.Str "abc123")) alpha_rule LangEN in
  rule_truthy (IValidatorRules.isAlpha (validatorRules (this h))) = true
  /\ Js.in_array "isAlpha" (Object_keys_this (this h)) = false
  /\ errors_after isAlpha h
     = [entry "isAlpha" "Should contain only alphabetic letters"]
  /\ outcome validate h = inr tt
  /\ errors_after validate h = [].
Proof. repeat split; reflexivity. Qed.

(** C2.  The error list is meant to hold at most one entry per check name.
    Two runs of [hasLength()] on a field holding ["ab"] under [min = 3]
    leave two entries named ["hasLength"]: a failing run pushes its entry
    without looking for the one already there. *)
Theorem hasLength_twice_duplicates :
  let h := fresh (field (Js.Str "ab")) (length_rule (Some 3) None None)
             LangEN in
  errors_after (hasLength ;; hasLength) h
  = [ entry "hasLength" "Should be more than or equal to 3 symbols";
      entry "hasLength" "Should be more than or equal to 3 symbols" ]
  /\ ~ NoDup (checkNames (errors_after (hasLength ;; hasLength) h)).
Proof.
  split; [reflexivity |].
  intros H. inversion H as [| x xs Hnotin _]; subst.
  apply Hnotin. left. reflexivity.
Qed.

(** C3.  One run of [hasLength()] on a string of length [len] reports the
    first bound that fails and nothing else: "too short" when
    [len < min]; otherwise "too long" when [max] is not zero and
    [len > max]; otherwise "wrong exact length" when [exact] is not zero
    and [len <> exact]; otherwise the entries of the check are cleared.  A
    run adds at most one entry, and from an empty list a value shorter
    than [min] leaves exactly the "too short" entry. *)
Theorem hasLength_precedence {W} (h : Heap W) (s : string)
    (c : LengthRule) :
  field_string (this h) = Some s ->
  IValidatorRules.hasLength (validatorRules (this h)) = Length c ->
  let len := str_length s in
  let lang := currentLanguage (validatorSettings (this h)) in
  let es := errors (this h) in
  outcome hasLength h = inr tt
  /\ (forall m, min c = Some m -> len < m ->
      errors_after hasLength h
      = (es ++ [entry "hasLength" (too_short m lang)])%list)
  /\ (forall M, min_holds c len -> max c = Some M -> M <> 0 -> M < len ->
      errors_after hasLength h
      = (es ++ [entry "hasLength" (too_long M)])%list)
  /\ (forall E, min_holds c len -> max_holds c len ->
      exact c = Some E -> E <> 0 -> len <> E ->
      errors_after hasLength h
      = (es ++ [entry "hasLength" (wrong_exact_length E)])%list)
  /\ (min_holds c len -> max_holds c len -> exact_holds c len ->
      errors_after hasLength h = without "hasLength" es)
  /\ (List.length (errors_after hasLength h) <= List.length es + 1)%nat
  /\ (forall m, es = [] -> min c = Some m -> len < m ->
      errors_after hasLength h = [entry "hasLength" (too_short m lang)]).
Proof.
  intros Hs Hc len lang es.
  unfold errors_after, outcome, exec, hasLength.
  rewrite (hasLength_with_run _ h s c Hs Hc). simpl.
  fold len lang es.
  split; [reflexivity |].
  split; [intros m; apply hasLength_errors_short |].
  split; [intros M; apply hasLength_errors_long |].
  split; [intros E; apply hasLength_errors_exact |].
  split; [apply hasLength_errors_pass |].
  split; [apply hasLength_errors_grows_by_one |].
  intros m Hes Hm Hlt.
  rewrite (hasLength_errors_short _ _ _ _ _ m Hm Hlt), Hes. reflexivity.
Qed.

(** The value ["ab"] under [min = 3], [max = 1], [exact = 1] breaks all
    three bounds and is reported as too short only. *)
Lemma hasLength_precedence_witness :
  let h := fresh (field (Js.Str "ab"))
             (length_rule (Some 3) (Some 1) (Some 1)) LangEN in
  field_string (this h) = Some "ab"
  /\ 2 < 3
  /\ errors_after hasLength h
     = [entry "hasLength" "Should be more than or equal to 3 symbols"].
Proof.
  intros h. split; [reflexivity |]. split; [reflexivity |].
  exact (proj2 (proj2 (proj2 (proj2 (proj2 (proj2
           (hasLength_precedence h "ab"
              {| min := Some 3; max := Some 1; exact := Some 1 |}
              eq_refl eq_refl))))))
           3 eq_refl eq_refl eq_refl).
Defined.

(** C4.  A check called while the bound field is missing or holds a value
    that is not a string throws the usage error at once, and so does
    [customCheck] called without a check name; in both cases the heap, and
    with it the error list, is as it was before the call. *)
Theorem usage_errors_throw {W} (h : Heap W)
    (fn : option (string -> Js.value)) (name msg : option string) :
  (field_string (this h) = None ->
     hasLength h = (inl not_a_string, h)
     /\ isAlpha h = (inl not_a_string, h)
     /\ isEmail h = (inl not_a_string, h)
     /\ customCheck fn name msg h = (inl not_a_string, h)
     /\ validate h = (inl not_a_string, h))
  /\ (forall s, field_string (this h) = Some s ->
      override name "" = "" ->
      customCheck fn name msg h = (inl name_missing, h)).
Proof.
  split.
  - intros Hs. repeat split; apply guard_throws; exact Hs.
  - intros s Hs Hn. unfold customCheck, bind.
    rewrite input_value_run, Hs, Hn. reflexivity.
Qed.

(** A validator bound to the number 7 with one entry already in its list:
    [isAlpha()] throws and the entry is still the only one; on a string
    field [customCheck] without a name throws as well. *)
Lemma usage_errors_throw_witness :
  let h := with_errors [entry "unique" "taken"]
             (fresh (field (Js.Number 7)) alpha_rule LangEN) in
  let g := fresh (field (Js.Str "abc")) no_rules LangEN in
  field_string (this h) = None
  /\ isAlpha h = (inl not_a_string, h)
  /\ errors_after isAlpha h = [entry "unique" "taken"]
  /\ customCheck None (Some "") (Some "taken") g = (inl name_missing, g).
Proof.
  intros h g.
  pose proof (usage_errors_throw h None None None) as [Hh _].
  pose proof (usage_errors_throw g None (Some "") (Some "taken"))
    as [_ Hg].
  destruct (Hh eq_refl) as (_ & Ha & _).
  split; [reflexivity |]. split; [exact Ha |].
  split; [unfold errors_after, exec; rewrite Ha; reflexivity |].
  exact (Hg "abc" eq_refl eq_refl).
Defined.

(** C5.  Running [validate()] a second time, the field value unchanged,
    leaves the error list the first run left. *)
Theorem validate_idempotent {W} (h : Heap W) :
  errors_after validate (exec validate h) = errors_after validate h
  /\ outcome validate (exec validate h) = outcome validate h.
Proof.
  split.
  - rewrite (validate_keeps_errors (exec validate h)). reflexivity.
  - unfold outcome.
    pose proof (field_string_validate h) as Hf.
    destruct (field_string (this h)) as [s |] eqn:Hs.
    + rewrite (validate_run _ s Hf), (validate_run h s Hs). reflexivity.
    + rewrite (validate_throws _ Hf), (validate_throws h Hs). reflexivity.
Qed.

(** C6.  On a validator whose field holds a string, [validate()] returns
    and the collaborator's state afterwards is its state before with the
    finish callback applied once, to the whole error list the validator
    holds when [validate()] returns; the callback itself stays in place. *)
Theorem validate_calls_finish_once {W} (h : Heap W) (s : string) :
  field_string (this h) = Some s ->
  outcome validate h = inr tt
  /\ world (exec validate h)
     = onValidationFinish (validatorHandlers (this h))
         (errors (this (exec validate h))) (world h)
  /\ validatorHandlers (this (exec validate h))
     = validatorHandlers (this h).
Proof.
  intros Hs. unfold outcome, exec. rewrite (validate_run h s Hs). simpl.
  repeat split.
Qed.

(** After a failing [isAlpha()], [validate()] adds one list to the log of
    the collaborator, and that list holds the entry recorded earlier. *)
Lemma validate_calls_finish_once_witness :
  let h := exec isAlpha
             (fresh (field (Js.Str "abc123")) alpha_rule LangEN) in
  field_string (this h) = Some "abc123"
  /\ world h = []
  /\ world (exec validate h)
     = [[entry "isAlpha" "Should contain only alphabetic letters"]].
Proof.
  intros h. split; [reflexivity |]. split; [reflexivity |].
  destruct (validate_calls_finish_once h "abc123" eq_refl)
    as (_ & Hw & _).
  rewrite Hw. reflexivity.
Defined.

(** C7.  On a string field, [isEmail()] appends its entry exactly when the
    value is not of the shape text@text.text, and clears the entries of
    the check when it is.  From an empty list ["a@b.com"] leaves no entry
    and ["a@@b"] leaves one. *)
Theorem isEmail_records_iff_not_email_shaped :
  (forall W (h : Heap W) (s : string),
      field_string (this h) = Some s ->
      outcome isEmail h = inr tt
      /\ (email_shaped s ->
          errors_after isEmail h = without "isEmail" (errors (this h)))
      /\ (~ email_shaped s ->
          errors_after isEmail h
          = (errors (this h)
             ++ [entry "isEmail" "Incorrect email address"])%list))
  /\ errors_after isEmail (fresh (field (Js.Str "a@b.com")) no_rules LangEN)
     = []
  /\ errors_after isEmail (fresh (field (Js.Str "a@@b")) no_rules LangEN)
     = [entry "isEmail" "Incorrect email address"].
Proof.
  split; [| split; reflexivity].
  intros W h s Hs. unfold outcome, errors_after, exec.
  rewrite (isEmail_run h s Hs). simpl.
  split; [reflexivity |].
  destruct (RegExp.test RegExp.email_re s) eqn:Ht.
  - split; [reflexivity |]. intros Hn. exfalso. apply Hn.
    apply PatternFacts.test_email. exact Ht.
  - split; [| reflexivity]. intros He.
    apply PatternFacts.test_email in He. congruence.
Qed.

(** ["x.y@mail.org"] is of the shape and clears a stale entry; ["a b@c.d"]
    is not, because of the space. *)
Lemma isEmail_records_iff_not_email_shaped_witness :
  let h := with_errors [entry "isEmail" "Incorrect email address"]
             (fresh (field (Js.Str "x.y@mail.org")) no_rules LangEN) in
  field_string (this h) = Some "x.y@mail.org"
  /\ email_shaped "x.y@mail.org"
  /\ errors_after isEmail h = [].
Proof.
  intros h.
  assert (He : email_shaped "x.y@mail.org").
  { exists "x.y", "mail", "org".
    split; [reflexivity |].
    repeat split; try discriminate;
      simpl in *;
      repeat match goal with
             | H : _ \/ _ |- _ => destruct H
             | H : False |- _ => destruct H
             end; subst; try reflexivity; discriminate. }
  split; [reflexivity |]. split; [exact He |].
  destruct isEmail_records_iff_not_email_shaped as [Hgen _].
  destruct (Hgen log h "x.y@mail.org" eq_refl) as (_ & Hyes & _).
  rewrite (Hyes He). reflexivity.
Defined.

(** C8.  On a string field, [isAlpha()] appends its entry exactly when the
    value holds a character outside [A-Za-z], and clears the entries of the
    check otherwise; the empty string passes.  From an empty list
    ["abc123"] leaves exactly one entry, named ["isAlpha"]. *)
Theorem isAlpha_records_iff_not_letters :
  (forall W (h : Heap W) (s : string),
      field_string (this h) = Some s ->
      outcome isAlpha h = inr tt
      /\ (only_letters s = true ->
          errors_after isAlpha h = without "isAlpha" (errors (this h)))
      /\ (only_letters s = false ->
          errors_after isAlpha h
          = (errors (this h)
             ++ [entry "isAlpha"
                   "Should contain only alphabetic letters"])%list))
  /\ only_letters "" = true
  /\ errors_after isAlpha (fresh (field (Js.Str "")) no_rules LangEN) = []
  /\ errors_after isAlpha (fresh (field (Js.Str "abc123")) no_rules LangEN)
     = [entry "isAlpha" "Should contain only alphabetic letters"].
Proof.
  split; [| repeat split].
  intros W h s Hs. unfold outcome, errors_after, exec.
  rewrite (isAlpha_run h s Hs). simpl.
  split; [reflexivity |].
  split; intros ->; reflexivity.
Qed.

(** The empty string passes and clears a stale entry; ["R2D2"] fails. *)
Lemma isAlpha_records_iff_not_letters_witness :
  let h := with_errors
             [entry "isAlpha" "Should contain only alphabetic letters"]
             (fresh (field (Js.Str "")) no_rules LangEN) in
  let g := fresh (field (Js.Str "R2D2")) no_rules LangEN in
  field_string (this h) = Some ""
  /\ only_letters "" = true
  /\ errors_after isAlpha h = []
  /\ only_letters "R2D2" = false
  /\ errors_after isAlpha g
     = [entry "isAlpha" "Should contain only alphabetic letters"].
Proof.
  intros h g.
  destruct isAlpha_records_iff_not_letters as [Hgen _].
  destruct (Hgen log h "" eq_refl) as (_ & Hyes & _).
  destruct (Hgen log g "R2D2" eq_refl) as (_ & _ & Hno).
  split; [reflexivity |]. split; [reflexivity |].
  split; [rewrite (Hyes eq_refl); reflexivity |].
  split; [reflexivity |].
  rewrite (Hno eq_refl). reflexivity.
Defined.

(** C9, as the code has it.  On a string field and with a check name, a
    [customCheck] whose predicate returns anything but [true] appends one
    entry under that name, with the message given or, when the message is
    empty, with "<checkName> check failed".  A second call whose predicate
    returns [true] removes every entry of that name, the one just added and
    any the list held before, and leaves the entries of the other checks,
    in their order; when the list held no entry of that name before the
    first call, it is back to what it was. *)
Theorem customCheck_adds_then_removes {W} (h : Heap W)
    (s name msg : string) (fails passes : string -> Js.value) :
  field_string (this h) = Some s ->
  name <> "" ->
  fails s <> Js.Bool true ->
  passes s = Js.Bool true ->
  let es := errors (this h) in
  let h1 := exec (customCheck (Some fails) (Some name) (Some msg)) h in
  let h2 := exec (customCheck (Some passes) (Some name) (Some msg)) h1 in
  (msg <> "" -> errors (this h1) = (es ++ [entry name msg])%list)
  /\ (msg = "" ->
      errors (this h1)
      = (es ++ [entry name (name ++ " check failed")])%list)
  /\ errors (this h2) = without name es
  /\ (~ In name (checkNames es) -> errors (this h2) = es).
Proof.
  intros Hs Hn Hf Hp es h1 h2.
  assert (E1 : errors (this h1)
               = (es ++ [entry name
                           (if String.eqb msg ""
                            then name ++ " check failed" else msg)])%list).
  { unfold h1, exec. rewrite (customCheck_run h s fails name msg Hs Hn).
    apply is_true_false in Hf. rewrite Hf. reflexivity. }
  assert (E2 : errors (this h2) = without name es).
  { unfold h2, exec.
    assert (Hs1 : field_string (this h1) = Some s).
    { unfold h1, exec.
      rewrite (customCheck_run h s fails name msg Hs Hn). exact Hs. }
    rewrite (customCheck_run h1 s passes name msg Hs1 Hn), Hp. simpl.
    rewrite E1, without_app, without_own. apply app_nil_r. }
  split; [| split; [| split]].
  - intros Hm. rewrite E1.
    destruct (String.eqb_spec msg ""); [contradiction | reflexivity].
  - intros ->. rewrite E1. reflexivity.
  - exact E2.
  - intros Hnot. rewrite E2. apply without_absent. exact Hnot.
Qed.

(** C9 as stated fails on a list that holds an entry named ["unique"]
    already: the failing call adds its entry, and the passing call removes
    that entry and the older one with it, so the list is not what it was
    before the failing call. *)
Lemma customCheck_pass_removes_stale_entry :
  let fails := fun _ : string => Js.Bool false in
  let passes := fun _ : string => Js.Bool true in
  let h := exec (customCheck (Some fails) (Some "unique") (Some "old"))
             (fresh (field (Js.Str "bob")) no_rules LangEN) in
  let h1 := exec (customCheck (Some fails) (Some "unique") (Some "taken"))
              h in
  let h2 := exec (customCheck (Some passes) (Some "unique") (Some "taken"))
              h1 in
  errors (this h) = [entry "unique" "old"]
  /\ errors (this h1) = [entry "unique" "old"; entry "unique" "taken"]
  /\ errors (this h2) = []
  /\ errors (this h2) <> errors (this h).
Proof.
  repeat split; try reflexivity. discriminate.
Qed.

(** A predicate answering 1 fails the check ["unique"]; the entry of
    [isAlpha] recorded before is untouched by both calls. *)
Lemma customCheck_adds_then_removes_witness :
  let h := exec isAlpha
             (fresh (field (Js.Str "bob7")) no_rules LangEN) in
  let fails := fun _ : string => Js.Number 1 in
  let passes := fun _ : string => Js.Bool true in
  let h1 := exec (customCheck (Some fails) (Some "unique") (Some "taken"))
              h in
  let h2 := exec (customCheck (Some passes) (Some "unique") (Some "taken"))
              h1 in
  field_string (this h) = Some "bob7"
  /\ errors (this h1)
     = [ entry "isAlpha" "Should contain only alphabetic letters";
         entry "unique" "taken" ]
  /\ errors (this h2)
     = [ entry "isAlpha" "Should contain only alphabetic letters" ].
Proof.
  intros h fails passes h1 h2.
  assert (Hn : "unique" <> "") by discriminate.
  assert (Hf : fails "bob7" <> Js.Bool true) by discriminate.
  assert (Hm : "taken" <> "") by discriminate.
  assert (Hnot : ~ In "unique" (checkNames (errors (this h)))).
  { simpl. intros [H | []]. discriminate. }
  destruct (customCheck_adds_then_removes h "bob7" "unique" "taken"
              fails passes eq_refl Hn Hf eq_refl)
    as (Hadd & _ & _ & Hback).
  split; [reflexivity |]. split.
  - exact (Hadd Hm).
  - exact (Hback Hnot).
Defined.

(** C10.  The message [hasLength()] records for a length below [min] is the
    entry of the message table for the current language, and the two
    languages give different texts.  The message for a length above [max],
    and for a length other than [exact], is the English text whatever the
    current language is.  Of the message table only the [min] formatter is
    read: a table with the same [min] formatter and any other [max] and
    [exact] entries gives the same run. *)
Theorem hasLength_message_language {W} (h : Heap W) (s : string)
    (c : LengthRule) (l : Language) :
  field_string (this h) = Some s ->
  IValidatorRules.hasLength (validatorRules (this h)) = Length c ->
  let len := str_length s in
  let es := errors (this h) in
  let table := IErrorTextMessages.hasLength errorTextMessages in
  (forall m, min c = Some m -> len < m ->
     errors_after hasLength (with_language l h)
     = (es ++ [entry "hasLength"
                 (select (IErrorTextMessages.min table (Some m)) l)])%list
     /\ select (IErrorTextMessages.min table (Some m)) LangEN
        <> select (IErrorTextMessages.min table (Some m)) LangRU)
  /\ (forall M, min_holds c len -> max c = Some M -> M <> 0 -> M < len ->
      errors_after hasLength (with_language l h)
      = (es ++ [entry "hasLength"
                  (EN (IErrorTextMessages.max table (Some M)))])%list
      /\ EN (IErrorTextMessages.max table (Some M))
         <> RU (IErrorTextMessages.max table (Some M)))
  /\ (forall E, min_holds c len -> max_holds c len ->
      exact c = Some E -> E <> 0 -> len <> E ->
      errors_after hasLength (with_language l h)
      = (es ++ [entry "hasLength"
                  (EN (IErrorTextMessages.exact table (Some E)))])%list
      /\ EN (IErrorTextMessages.exact table (Some E))
         <> RU (IErrorTextMessages.exact table (Some E)))
  /\ (forall other : IErrorTextMessages.t,
      IErrorTextMessages.min (IErrorTextMessages.hasLength other)
      = IErrorTextMessages.min table ->
      hasLength_with other (with_language l h)
      = hasLength (with_language l h)).
Proof.
  intros Hs Hc len es table.
  assert (Hrun : forall t,
             hasLength_with t (with_language l h)
             = (inr tt,
                with_errors (hasLength_errors t l c len es)
                  (with_language l h)))
    by (intros t; apply (hasLength_with_run t (with_language l h) s c Hs Hc)).
  assert (Herr : errors_after hasLength (with_language l h)
                 = hasLength_errors errorTextMessages l c len es)
    by (unfold errors_after, exec, hasLength; rewrite Hrun; reflexivity).
  rewrite Herr.
  split; [| split; [| split]].
  - intros m Hm Hlt. split.
    + apply hasLength_errors_short; assumption.
    + simpl. discriminate.
  - intros M Hmin HM Hnz Hgt. split.
    + apply hasLength_errors_long; assumption.
    + simpl. discriminate.
  - intros E Hmin Hmax HE Hnz Hne. split.
    + apply hasLength_errors_exact; assumption.
    + simpl. discriminate.
  - intros other Hmin. unfold hasLength. rewrite !Hrun.
    rewrite (hasLength_errors_min_only other errorTextMessages); auto.
Qed.

(** Under [RU], ["ab"] against [min = 3] is reported in Russian, and
    ["abcd"] against [max = 3] in English. *)
Lemma hasLength_message_language_witness :
  let short := fresh (field (Js.Str "ab")) (length_rule (Some 3) None None)
                 LangEN in
  let long := fresh (field (Js.Str "abcd"))
                (length_rule (Some 3) (Some 3) None) LangEN in
  field_string (this short) = Some "ab"
  /\ 2 < 3
  /\ errors_after hasLength (with_language LangRU short)
     = [entry "hasLength"
          (RU (IErrorTextMessages.min
                 (IErrorTextMessages.hasLength errorTextMessages) (Some 3)))]
  /\ 3 < 4
  /\ errors_after hasLength (with_language LangRU long)
     = [entry "hasLength" "Should be no more than 3 symbols"].
Proof.
  intros short long.
  destruct (hasLength_message_language short "ab"
              {| min := Some 3; max := None; exact := None |} LangRU
              eq_refl eq_refl) as (Hshort & _).
  destruct (hasLength_message_language long "abcd"
              {| min := Some 3; max := Some 3; exact := None |} LangRU
              eq_refl eq_refl) as (_ & Hlong & _).
  assert (Hmin : min_holds {| min := Some 3; max := Some 3; exact := None |}
                   (str_length "abcd")).
  { intros m Hm. injection Hm as <-. discriminate. }
  assert (Hnz : 3 <> 0) by discriminate.
  split; [reflexivity |]. split; [reflexivity |].
  split; [exact (proj1 (Hshort 3 eq_refl eq_refl)) |].
  split; [reflexivity |].
  exact (proj1 (Hlong 3 Hmin eq_refl Hnz eq_refl)).
Defined.

End Claims.

(** ** Further properties of the validator *)

Section CheckFacts.

Context {W : Type}.
Implicit Types (h : Heap W) (s name msg : string).

Lemma with_errors_self h : with_errors (errors (this h)) h = h.
Proof. destruct h as [[i r hd st es] w]. reflexivity. Qed.

Lemma without_no_name name (es : list ErrorEntry) :
  ~ In name (checkNames (without name es)).
Proof.
  unfold checkNames, without. intros Hin.
  apply in_map_iff in Hin as (e & He & Hf).
  apply filter_In in Hf as [_ Hf].
  apply negb_true_iff in Hf. apply String.eqb_neq in Hf. contradiction.
Qed.

Lemma without_idem name (es : list ErrorEntry) :
  without name (without name es) = without name es.
Proof.
  apply without_absent, without_no_name.
Qed.

Lemma bound_prim h (sel : LengthRule -> option Z) (v : Js.value) :
  IValidatorRules.hasLength (validatorRules (this h)) = Prim v ->
  bound sel h
  = match v with
    | Js.Undefined | Js.Null => (inl Js.TypeError, h)
    | _ => (inr None, h)
    end.
Proof.
  intros Hv. unfold bound, bind, gets, ret, throw. rewrite Hv.
  destruct v; reflexivity.
Qed.

Lemma shape_hasLength_with (t : IErrorTextMessages.t) :
  check_shape (W := W) "hasLength" (hasLength_with t).
Proof.
  intros h.
  destruct (field_string (this h)) as [s |] eqn:Hs.
  - destruct (IValidatorRules.hasLength (validatorRules (this h)))
      as [v | c] eqn:Hr.
    + unfold hasLength_with, bind.
      rewrite input_value_run, Hs.
      destruct v;
        repeat (rewrite (bound_prim h _ _ Hr);
                cbn [lt_bound is_set gt_bound neq_bound andb]);
        try solve [left; eexists; reflexivity]; right; right; reflexivity.
    + rewrite (hasLength_with_run t h s c Hs Hr). unfold hasLength_errors.
      destruct (lt_bound (str_length s) (min c)); [right; left; eexists; reflexivity |].
      destruct (is_set (max c) && gt_bound (str_length s) (max c));
        [right; left; eexists; reflexivity |].
      destruct (is_set (exact c) && neq_bound (str_length s) (exact c));
        [right; left; eexists; reflexivity | right; right; reflexivity].
  - left. exists not_a_string. apply guard_throws. exact Hs.
Qed.

Lemma shape_isAlpha : check_shape (W := W) "isAlpha" isAlpha.
Proof.
  intros h. unfold isAlpha, bind. rewrite input_value_run.
  destruct (field_string (this h)) as [s |]; [| left; eexists; reflexivity].
  destruct (RegExp.test RegExp.alpha_re s);
    [right; right; reflexivity | right; left; eexists; reflexivity].
Qed.

Lemma shape_isEmail : check_shape (W := W) "isEmail" isEmail.
Proof.
  intros h. unfold isEmail, bind. rewrite input_value_run.
  destruct (field_string (this h)) as [s |]; [| left; eexists; reflexivity].
  destruct (RegExp.test RegExp.email_re s);
    [right; right; reflexivity | right; left; eexists; reflexivity].
Qed.

Lemma shape_customCheck (fn : option (string -> Js.value))
    (name msg : option string) :
  check_shape (W := W) (override name "") (customCheck fn name msg).
Proof.
  intros h. unfold customCheck, bind. rewrite input_value_run.
  destruct (field_string (this h)) as [s |]; [| left; eexists; reflexivity].
  destruct (String.eqb (override name "") ""); [left; eexists; reflexivity |].
  destruct (Js.is_true (override fn (fun _ => Js.Bool true) s));
    [right; right; reflexivity | right; left; eexists; reflexivity].
Qed.

(** A check changes the error list and nothing else. *)
Lemma shape_frame name (m : M W unit) h :
  check_shape name m -> exec m h = with_errors (errors_after m h) h.
Proof.
  intros Hm. unfold errors_after, exec.
  destruct (Hm h) as [[e ->] | [[msg ->] | ->]]; simpl.
  - symmetry. apply with_errors_self.
  - reflexivity.
  - reflexivity.
Qed.

(** A check leaves the entries of the other checks as they are. *)
Lemma shape_others name (m : M W unit) h :
  check_shape name m ->
  without name (errors_after m h) = without name (errors (this h)).
Proof.
  intros Hm. unfold errors_after, exec.
  destruct (Hm h) as [[e ->] | [[msg ->] | ->]]; simpl.
  - reflexivity.
  - rewrite without_app, without_own. apply app_nil_r.
  - apply without_idem.
Qed.

Lemma field_string_with_errors (es : list ErrorEntry) h :
  field_string (this (with_errors es h)) = field_string (this h).
Proof. reflexivity. Qed.

End CheckFacts.

Section MoreFacts.

Context {W : Type}.
Implicit Types (h : Heap W) (s name msg : string).
Local Open Scope js_scope.

Lemma list_of_length s :
  List.length (list_ascii_of_string s) = String.length s.
Proof. induction s as [| c s IH]; simpl; [reflexivity | now rewrite IH]. Qed.

Lemma str_length_nonneg s : 0 <= str_length s.
Proof. unfold str_length. lia. Qed.

Lemma hasLength_errors_zero_absent (t : IErrorTextMessages.t)
    (l : Language) (c : LengthRule) s (es : list ErrorEntry) :
  hasLength_errors t l (zero_absent c) (str_length s) es
  = hasLength_errors t l c (str_length s) es.
Proof.
  pose proof (str_length_nonneg s) as Hlen.
  unfold hasLength_errors, zero_absent. simpl.
  destruct (min c) as [m |]; simpl.
  - destruct (str_length s <? m); [reflexivity |].
    destruct (max c) as [M |], (exact c) as [E |]; reflexivity.
  - destruct (Z.ltb_spec (str_length s) 0); [lia |].
    destruct (max c) as [M |], (exact c) as [E |]; reflexivity.
Qed.

Lemma times_fail_run (fails : string -> Js.value) name msg s (k : nat) :
  name <> "" ->
  Js.is_true (fails s) = false ->
  forall h,
    field_string (this h) = Some s ->
    times k (customCheck (Some fails) (Some name) (Some msg)) h
    = (inr tt,
       with_errors
         (errors (this h)
          ++ repeat
               (entry name
                  (if String.eqb msg "" then name ++ " check failed"
                   else msg)) k) h).
Proof.
  intros Hn Hf. induction k as [| k IH]; intros h Hs; simpl.
  - unfold ret. rewrite app_nil_r, with_errors_self. reflexivity.
  - unfold bind. rewrite (customCheck_run h s fails name msg Hs Hn), Hf.
    rewrite IH by exact Hs. simpl. unfold with_errors. simpl.
    rewrite <- app_assoc. reflexivity.
Qed.

Lemma at_not_letter (w : list ascii) :
  In "@"%char w -> forallb ascii_letter w = false.
Proof.
  induction w as [| c w IH]; simpl; intros H; [contradiction |].
  destruct H as [-> | H]; [reflexivity |].
  rewrite (IH H). apply andb_false_r.
Qed.

Lemma letters_not_email s :
  only_letters s = true -> RegExp.test RegExp.email_re s = false.
Proof.
  intros Hl. destruct (RegExp.test RegExp.email_re s) eqn:Ht; [| reflexivity].
  apply PatternFacts.test_email in Ht as (a & b & c & -> & _).
  unfold only_letters in Hl.
  rewrite at_not_letter in Hl; [discriminate |].
  rewrite PatternFacts.list_of_append. apply in_or_app. right.
  left. reflexivity.
Qed.

Lemma class_no_at (w : list ascii) :
  forallb RegExp.not_space_at w = true ->
  count_occ ascii_dec w "@"%char = 0%nat
  /\ forallb (fun c => negb (RegExp.white_space c)) w = true.
Proof.
  induction w as [| c w IH]; simpl; intros H; [auto |].
  apply andb_true_iff in H as [Hc Hw]. destruct (IH Hw) as [IH1 IH2].
  unfold RegExp.not_space_at in Hc.
  apply negb_true_iff, orb_false_iff in Hc as [Hs Ha].
  rewrite Hs, IH2. simpl. split; [| reflexivity].
  destruct (ascii_dec c "@") as [-> | _]; [discriminate | exact IH1].
Qed.

End MoreFacts.

Module ValidatorProperties.

Import Fixture.
Local Open Scope js_scope.

(** X1.  After [validate()] on a string field, [dataset.isValid] of the
    field says "Valid" exactly when the error list is empty, which is the
    verdict of the getter [isValid]; the value of the field is untouched. *)
Theorem validate_marks_field {W} (h : Heap W) (s : string) :
  field_string (this h) = Some s ->
  let v := this (exec validate h) in
  marker v = Some (if isValid v then "Valid" else "Invalid")
  /\ (marker v = Some "Valid" <-> errors v = [])
  /\ field_string v = Some s.
Proof.
  intros Hs v. subst v. unfold exec. rewrite (validate_run h s Hs).
  unfold field_string, marker, isValid in *. simpl.
  destruct (input (this h)) as [el |]; [| discriminate]. simpl.
  split; [reflexivity |]. split; [| exact Hs].
  destruct (errors (this h)); simpl; split; intros H;
    try reflexivity; discriminate.
Qed.

Lemma validate_marks_field_witness :
  let h := exec isAlpha (fresh (field (Js.Str "R2D2")) no_rules LangEN) in
  field_string (this h) = Some "R2D2"
  /\ marker (this h) = None
  /\ marker (this (exec validate h)) = Some "Invalid".
Proof.
  intros h. split; [reflexivity |]. split; [reflexivity |].
  destruct (validate_marks_field h "R2D2" eq_refl) as (Hm & _ & _).
  rewrite Hm. reflexivity.
Defined.

(** X2.  A call of [hasLength], [isAlpha], [isEmail] or [customCheck],
    whether it returns or throws, changes nothing but the error list: the
    field, its [dataset.isValid], the rules and settings stay, and the
    finish callback is not called. *)
Theorem checks_change_only_the_error_list {W} (h : Heap W)
    (fn : option (string -> Js.value)) (name msg : option string) :
  exec hasLength h = with_errors (errors_after hasLength h) h
  /\ exec isAlpha h = with_errors (errors_after isAlpha h) h
  /\ exec isEmail h = with_errors (errors_after isEmail h) h
  /\ exec (customCheck fn name msg) h
     = with_errors (errors_after (customCheck fn name msg) h) h.
Proof.
  repeat split.
  - apply (shape_frame "hasLength"), shape_hasLength_with.
  - apply (shape_frame "isAlpha"), shape_isAlpha.
  - apply (shape_frame "isEmail"), shape_isEmail.
  - apply (shape_frame (override name "")), shape_customCheck.
Qed.

(** X3.  A call of a check leaves the entries of all other check names in
    the list, in their order; only entries under its own name come or go. *)
Theorem checks_keep_the_entries_of_other_checks {W} (h : Heap W)
    (fn : option (string -> Js.value)) (name msg : option string) :
  without "hasLength" (errors_after hasLength h)
  = without "hasLength" (errors (this h))
  /\ without "isAlpha" (errors_after isAlpha h)
     = without "isAlpha" (errors (this h))
  /\ without "isEmail" (errors_after isEmail h)
     = without "isEmail" (errors (this h))
  /\ without (override name "") (errors_after (customCheck fn name msg) h)
     = without (override name "") (errors (this h)).
Proof.
  repeat split.
  - apply shape_others, shape_hasLength_with.
  - apply shape_others, shape_isAlpha.
  - apply shape_others, shape_isEmail.
  - apply shape_others, shape_customCheck.
Qed.

(** X4.  [k] failing calls of a custom check in a row leave [k] more
    entries under its name, all with the same message; one passing call
    afterwards drops them all and leaves the entries of the other checks. *)
Theorem failing_runs_pile_up_until_a_pass {W} (h : Heap W)
    (s name msg : string) (fails passes : string -> Js.value) (k : nat) :
  field_string (this h) = Some s ->
  name <> "" ->
  fails s <> Js.Bool true ->
  passes s = Js.Bool true ->
  let failing := customCheck (Some fails) (Some name) (Some msg) in
  let passing := customCheck (Some passes) (Some name) (Some msg) in
  let recorded := if String.eqb msg "" then name ++ " check failed" else msg in
  errors_after (times k failing) h
  = (errors (this h) ++ repeat (entry name recorded) k)%list
  /\ errors_after passing (exec (times k failing) h)
     = without name (errors (this h)).
Proof.
  intros Hs Hn Hf Hp failing passing recorded.
  apply is_true_false in Hf.
  unfold errors_after, exec, failing, passing.
  rewrite (times_fail_run fails name msg s k Hn Hf h Hs). simpl.
  split; [reflexivity |].
  rewrite (customCheck_run _ s passes name msg) by (try exact Hs; exact Hn).
  rewrite Hp. simpl. rewrite without_app.
  assert (Hr : without name (repeat (entry name recorded) k) = []).
  { induction k as [| k IH]; [reflexivity |].
    change (repeat (entry name recorded) (S k))
      with ([entry name recorded] ++ repeat (entry name recorded) k)%list.
    rewrite without_app, without_own, IH. reflexivity. }
  fold recorded. rewrite Hr. apply app_nil_r.
Qed.

Lemma failing_runs_pile_up_until_a_pass_witness :
  let h := exec isAlpha (fresh (field (Js.Str "bob7")) no_rules LangEN) in
  let fails := fun _ : string => Js.Undefined in
  let passes := fun _ : string => Js.Bool true in
  let failing := customCheck (Some fails) (Some "unique") (Some "") in
  let passing := customCheck (Some passes) (Some "unique") (Some "") in
  field_string (this h) = Some "bob7"
  /\ errors_after (times 3 failing) h
     = [ entry "isAlpha" "Should contain only alphabetic letters";
         entry "unique" "unique check failed";
         entry "unique" "unique check failed";
         entry "unique" "unique check failed" ]
  /\ errors_after passing (exec (times 3 failing) h)
     = [ entry "isAlpha" "Should contain only alphabetic letters" ].
Proof.
  intros h fails passes failing passing.
  assert (Hn : "unique" <> "") by discriminate.
  assert (Hf : fails "bob7" <> Js.Bool true) by discriminate.
  destruct (failing_runs_pile_up_until_a_pass h "bob7" "unique" "" fails
              passes 3 eq_refl Hn Hf eq_refl) as [Hup Hdown].
  split; [reflexivity |]. split; [exact Hup | exact Hdown].
Defined.

(** X5.  A bound of [hasLength] that is absent counts as 0: a rule object
    and the same object with its absent bounds written as 0 give the same
    error list on every string. *)
Theorem hasLength_absent_bound_is_zero {W} (h : Heap W) (s : string)
    (c : LengthRule) :
  field_string (this h) = Some s ->
  errors_after hasLength (with_length_rule (Length (zero_absent c)) h)
  = errors_after hasLength (with_length_rule (Length c) h).
Proof.
  intros Hs. unfold errors_after, exec, hasLength.
  rewrite (hasLength_with_run _ (with_length_rule (Length (zero_absent c)) h)
             s (zero_absent c) Hs eq_refl).
  rewrite (hasLength_with_run _ (with_length_rule (Length c) h) s c Hs
             eq_refl).
  simpl. apply hasLength_errors_zero_absent.
Qed.

(** The constructor replaces the default bounds by the object it is given:
    with [{ min: 3 }] the other two bounds are absent, and ["abcdef"] passes
    as it does under [{ min: 3, max: 0, exact: 0 }]. *)
Lemma hasLength_absent_bound_is_zero_witness :
  let h := with_errors [entry "hasLength" "stale"]
             (fresh (field (Js.Str "abcdef"))
                (length_rule (Some 3) None None) LangEN) in
  let c := {| min := Some 3; max := None; exact := None |} in
  field_string (this h) = Some "abcdef"
  /\ with_length_rule (Length c) h = h
  /\ zero_absent c = {| min := Some 3; max := Some 0; exact := Some 0 |}
  /\ errors_after hasLength (with_length_rule (Length (zero_absent c)) h)
     = [].
Proof.
  intros h c. split; [reflexivity |]. split; [reflexivity |].
  split; [reflexivity |].
  rewrite (hasLength_absent_bound_is_zero h "abcdef" c eq_refl).
  reflexivity.
Defined.

(** X6.  Where every bound of the rule is absent or 0, as in the default
    rule set, and where the rule entry is a boolean, a number or a string,
    [hasLength()] accepts every string: it records nothing and drops the
    entries of the check. *)
Theorem hasLength_without_bounds_accepts_all {W} (h : Heap W) (s : string) :
  field_string (this h) = Some s ->
  (forall c,
      IValidatorRules.hasLength (validatorRules (this h)) = Length c ->
      unset (min c) -> unset (max c) -> unset (exact c) ->
      hasLength h = (inr tt, with_errors (without "hasLength" (errors (this h))) h))
  /\ (forall v,
      IValidatorRules.hasLength (validatorRules (this h)) = Prim v ->
      v <> Js.Undefined -> v <> Js.Null ->
      hasLength h = (inr tt, with_errors (without "hasLength" (errors (this h))) h)).
Proof.
  intros Hs. split.
  - intros c Hc Hmin Hmax Hex. unfold hasLength.
    rewrite (hasLength_with_run _ h s c Hs Hc).
    rewrite hasLength_errors_pass; [reflexivity | | |].
    + intros m Hm. pose proof (str_length_nonneg s).
      destruct Hmin as [H0 | H0]; rewrite H0 in Hm; [discriminate |].
      injection Hm as <-. assumption.
    + intros M HM. destruct Hmax as [H0 | H0]; rewrite H0 in HM;
        [discriminate |]. injection HM as <-. left. reflexivity.
    + intros E HE. destruct Hex as [H0 | H0]; rewrite H0 in HE;
        [discriminate |]. injection HE as <-. left. reflexivity.
  - intros v Hv Hu Hn. unfold hasLength, hasLength_with, bind.
    rewrite input_value_run, Hs.
    destruct v; try contradiction;
      repeat (rewrite (bound_prim h _ _ Hv);
              cbn [lt_bound is_set gt_bound neq_bound andb]);
      reflexivity.
Qed.

Lemma hasLength_without_bounds_accepts_all_witness :
  let h := with_errors [entry "hasLength" "stale"; entry "isEmail" "kept"]
             (fresh (field (Js.Str "")) no_rules LangEN) in
  field_string (this h) = Some ""
  /\ IValidatorRules.hasLength (validatorRules (this h))
     = IValidatorRules.hasLength default_rules
  /\ errors_after hasLength h = [entry "isEmail" "kept"].
Proof.
  intros h. split; [reflexivity |]. split; [reflexivity |].
  destruct (hasLength_without_bounds_accepts_all h "" eq_refl) as [Hc _].
  unfold errors_after, exec.
  rewrite (Hc {| min := Some 0; max := Some 0; exact := Some 0 |} eq_refl
             (or_intror eq_refl) (or_intror eq_refl) (or_intror eq_refl)).
  reflexivity.
Defined.

(** X7.  Bounds that contradict each other reject every string: with a
    [max] that is set and below [min], with an [exact] that is set and
    below [min], and with an [exact] that is set and above a [max] that is
    set, each call of [hasLength()] adds an entry, whatever the value. *)
Theorem hasLength_contradicting_bounds_reject_all {W} (h : Heap W)
    (s : string) (c : LengthRule) :
  field_string (this h) = Some s ->
  IValidatorRules.hasLength (validatorRules (this h)) = Length c ->
  (exists lo hi, min c = Some lo /\ max c = Some hi /\ hi <> 0 /\ hi < lo)
  \/ (exists lo ex, min c = Some lo /\ exact c = Some ex /\ ex <> 0
                    /\ ex < lo)
  \/ (exists hi ex, max c = Some hi /\ exact c = Some ex /\ hi <> 0
                    /\ ex <> 0 /\ hi < ex) ->
  exists msg,
    errors_after hasLength h
    = (errors (this h) ++ [entry "hasLength" msg])%list.
Proof.
  intros Hs Hc Hbad. unfold errors_after, exec, hasLength.
  rewrite (hasLength_with_run _ h s c Hs Hc). simpl.
  unfold hasLength_errors.
  destruct (lt_bound (str_length s) (min c)) eqn:Hlt; [eexists; reflexivity |].
  destruct (is_set (max c) && gt_bound (str_length s) (max c)) eqn:Hgt;
    [eexists; reflexivity |].
  destruct (is_set (exact c) && neq_bound (str_length s) (exact c)) eqn:Hne;
    [eexists; reflexivity |].
  exfalso.
  destruct Hbad as [(lo & hi & Hlo & Hhi & Hnz & Hlt')
                   | [(lo & ex & Hlo & Hex & Hnz & Hlt')
                     | (hi & ex & Hhi & Hex & Hnz & Hnz' & Hlt')]];
    repeat match goal with
           | H : _ = Some _ |- _ => rewrite H in *; clear H
           end;
    simpl in *;
    repeat match goal with
           | H : _ && _ = false |- _ => apply andb_false_iff in H
           | H : negb _ = false |- _ => apply negb_false_iff in H
           | H : (_ <? _) = false |- _ => apply Z.ltb_ge in H
           | H : (_ =? _) = true |- _ => apply Z.eqb_eq in H
           | H : _ \/ _ |- _ => destruct H
           end;
    try lia.
Qed.

Lemma hasLength_contradicting_bounds_reject_all_witness :
  let h := fresh (field (Js.Str "abcd"))
             (length_rule (Some 4) (Some 2) None) LangEN in
  field_string (this h) = Some "abcd"
  /\ exists msg, errors_after hasLength h = [entry "hasLength" msg].
Proof.
  intros h. split; [reflexivity |].
  assert (Hnz : 2 <> 0) by discriminate.
  exact (hasLength_contradicting_bounds_reject_all h "abcd"
           {| min := Some 4; max := Some 2; exact := None |}
           eq_refl eq_refl
           (or_introl
              (ex_intro _ 4
                 (ex_intro _ 2
                    (conj eq_refl (conj eq_refl (conj Hnz eq_refl))))))).
Defined.

(** X8.  A value [isEmail()] accepts holds exactly one ["@"], no white
    space, and at least five code units. *)
Theorem accepted_email_has_one_at (s : string) :
  RegExp.test RegExp.email_re s = true ->
  count_occ ascii_dec (list_ascii_of_string s) "@"%char = 1%nat
  /\ forallb (fun c => negb (RegExp.white_space c)) (list_ascii_of_string s)
     = true
  /\ (5 <= String.length s)%nat.
Proof.
  unfold RegExp.test, RegExp.email_re. rewrite RegExpFacts.matches_lang.
  intros H. rewrite <- list_of_length.
  apply RegExpFacts.lang_seq_inv in H as (u1 & r1 & E1 & Ha & H).
  apply RegExpFacts.lang_seq_inv in H as (u2 & r2 & E2 & Hat & H).
  apply RegExpFacts.lang_seq_inv in H as (u3 & r3 & E3 & Hb & H).
  apply RegExpFacts.lang_seq_inv in H as (u4 & u5 & E4 & Hdot & Hc).
  apply RegExpFacts.lang_char in Hat, Hdot.
  apply RegExpFacts.lang_plus_class in Ha as [Na Ha], Hb as [Nb Hb],
    Hc as [Nc Hc].
  apply class_no_at in Ha as [Ca Wa], Hb as [Cb Wb], Hc as [Cc Wc].
  subst u2 u4 r3 r2 r1. rewrite E1.
  rewrite !count_occ_app, !forallb_app, !length_app, Ca, Cb, Cc, Wa, Wb, Wc.
  simpl. repeat split.
  destruct u1, u3, u5; simpl; try contradiction; lia.
Qed.

Lemma accepted_email_has_one_at_witness :
  RegExp.test RegExp.email_re "a@b.c" = true
  /\ String.length "a@b.c" = 5%nat
  /\ count_occ ascii_dec (list_ascii_of_string "a@b.c") "@"%char = 1%nat.
Proof.
  split; [reflexivity |]. split; [reflexivity |].
  exact (proj1 (accepted_email_has_one_at "a@b.c" eq_refl)).
Defined.

(** X9.  No string passes both [isAlpha()] and [isEmail()]: after the two
    calls on a string field the list holds an entry of one of them, and
    the validator is not valid. *)
Theorem isAlpha_and_isEmail_never_both_pass {W} (h : Heap W) (s : string) :
  field_string (this h) = Some s ->
  let v := this (exec (isAlpha ;; isEmail) h) in
  (In "isAlpha" (checkNames (errors v)) \/ In "isEmail" (checkNames (errors v)))
  /\ isValid v = false.
Proof.
  intros Hs v.
  assert (Hin : In "isAlpha" (checkNames (errors v))
                \/ In "isEmail" (checkNames (errors v))).
  { subst v. unfold exec, bind. rewrite (isAlpha_run h s Hs).
    rewrite (isEmail_run _ s) by exact Hs. simpl.
    destruct (only_letters s) eqn:Hl.
    - rewrite (letters_not_email s Hl). right.
      unfold checkNames. rewrite map_app. apply in_or_app. right.
      left. reflexivity.
    - left. destruct (RegExp.test RegExp.email_re s).
      + unfold checkNames, without. apply in_map_iff.
        eexists. split; [| apply filter_In; split;
                           [apply in_or_app; right; left; reflexivity
                           | reflexivity]].
        reflexivity.
      + unfold checkNames. rewrite !map_app. apply in_or_app. left.
        apply in_or_app. right. left. reflexivity. }
  split; [exact Hin |].
  unfold isValid. destruct (errors v); [| reflexivity].
  destruct Hin as [[] | []].
Qed.

Lemma isAlpha_and_isEmail_never_both_pass_witness :
  let h := fresh (field (Js.Str "a@b.com")) no_rules LangEN in
  field_string (this h) = Some "a@b.com"
  /\ errors_after isEmail h = []
  /\ isValid (this (exec (isAlpha ;; isEmail) h)) = false.
Proof.
  intros h. split; [reflexivity |]. split; [reflexivity |].
  exact (proj2 (isAlpha_and_isEmail_never_both_pass h "a@b.com" eq_refl)).
Defined.

End ValidatorProperties.

(** ** Properties of the form *)

Section DictFacts.

Import AuthForm.
Context {A : Type}.
Implicit Types (d : dict A) (k : string) (v : A).

Lemma get_set_same k v d : get k (set k v d) = Some v.
Proof.
  induction d as [| [k' v'] d IH]; simpl.
  - rewrite String.eqb_refl. reflexivity.
  - destruct (String.eqb k' k) eqn:E; simpl.
    + rewrite String.eqb_refl. reflexivity.
    + rewrite E. exact IH.
Qed.

Lemma get_set_other k k0 v d : k0 <> k -> get k0 (set k v d) = get k0 d.
Proof.
  intros Hne. induction d as [| [k' v'] d IH]; simpl.
  - destruct (String.eqb_spec k k0); [congruence | reflexivity].
  - destruct (String.eqb_spec k' k) as [-> | Hk]; simpl.
    + destruct (String.eqb_spec k k0); [congruence | reflexivity].
    + rewrite IH. reflexivity.
Qed.

Lemma keys_set k v d (k0 : string) :
  In k0 (keys (set k v d)) <-> k0 = k \/ In k0 (keys d).
Proof.
  unfold keys. induction d as [| [k' v'] d IH]; simpl.
  - intuition.
  - destruct (String.eqb_spec k' k) as [-> | Hk]; simpl.
    + intuition.
    + rewrite IH. intuition.
Qed.

Lemma NoDup_keys_set k v d : NoDup (keys d) -> NoDup (keys (set k v d)).
Proof.
  induction d as [| [k' v'] d IH]; simpl; intros H.
  - constructor; [intros [] | constructor].
  - inversion H as [| x xs Hnotin Hnd]; subst.
    destruct (String.eqb_spec k' k) as [-> | Hk]; simpl.
    + constructor; assumption.
    + constructor; [| apply IH; exact Hnd].
      intros Hin. apply keys_set in Hin as [-> | Hin]; contradiction.
Qed.

Lemma set_set k v v' d : set k v (set k v' d) = set k v d.
Proof.
  induction d as [| [k' v0] d IH]; simpl.
  - rewrite String.eqb_refl. reflexivity.
  - destruct (String.eqb k' k) eqn:E; simpl.
    + rewrite String.eqb_refl. reflexivity.
    + rewrite E, IH. reflexivity.
Qed.

Lemma find_last (f : A -> bool) (l : list A) (x : A) :
  find f (l ++ [x])
  = match find f l with
    | Some y => Some y
    | None => if f x then Some x else None
    end.
Proof.
  induction l as [| a l IH]; simpl; [reflexivity |].
  destruct (f a); [reflexivity | exact IH].
Qed.

End DictFacts.

Section FormFacts.

Import AuthForm.

Lemma all_valid_iff (errors : FormErrors) :
  isAllInputsValid errors = true
  <-> Forall (fun field => snd field = []) errors.
Proof.
  unfold isAllInputsValid. rewrite Nat.eqb_eq, length_zero_iff_nil.
  induction errors as [| [k es] rest IH]; simpl.
  - split; [constructor | reflexivity].
  - split.
    + intros H. apply app_eq_nil in H as [H1 H2].
      constructor; [exact H1 | apply IH; exact H2].
    + intros H. inversion H as [| x xs H1 H2]; subst. simpl in H1.
      rewrite H1. apply IH. exact H2.
Qed.

Lemma all_valid_set (name : string) (errors : FormErrors) :
  isAllInputsValid errors = true ->
  isAllInputsValid (set name [] errors) = true.
Proof.
  rewrite !all_valid_iff.
  induction errors as [| [k es] rest IH]; simpl; intros H.
  - repeat constructor.
  - inversion H as [| x xs H1 H2]; subst.
    destruct (String.eqb k name); constructor; auto.
Qed.

Lemma blur_untouched (name s : string) (h : Heap FormErrors) :
  untouched name h ->
  untouched name (blur s h)
  /\ world (blur s h) = set name [] (world h)
  /\ marker (this (blur s h)) = Some "Valid"
  /\ field_string (this (blur s h)) = Some s.
Proof.
  intros (He & Hh & Hi). unfold blur, exec.
  assert (Hs : field_string (this (with_value s h)) = Some s).
  { unfold field_string, with_value. simpl.
    destruct (input (this h)); [reflexivity | contradiction]. }
  rewrite (validate_run _ s Hs). simpl. rewrite He, Hh. simpl.
  unfold untouched, marker, field_string. simpl.
  destruct (input (this h)); [| contradiction]. simpl.
  repeat split; discriminate.
Qed.

Lemma blurs_untouched (name : string) (ss : list string) :
  forall h,
    untouched name h ->
    untouched name (blurs ss h)
    /\ (ss <> [] ->
        world (blurs ss h) = set name [] (world h)
        /\ marker (this (blurs ss h)) = Some "Valid").
Proof.
  unfold blurs. induction ss as [| s ss IH]; intros h Hu; simpl.
  - split; [exact Hu | intros H; contradiction].
  - destruct (blur_untouched name s h Hu) as (Hu' & Hw & Hm & _).
    destruct (IH (blur s h) Hu') as [Hu'' Hrest].
    split; [exact Hu'' |]. intros _.
    destruct ss as [| s' ss'].
    + simpl. split; assumption.
    + destruct Hrest as [Hw' Hm']; [discriminate |].
      split; [| exact Hm'].
      rewrite Hw', Hw. apply set_set.
Qed.

End FormFacts.

Module FormProperties.

Import AuthForm.

(** X10.  The finish handler [initValidator] installs for the input called
    [name] stores the list it gets under [name] and leaves the lists of the
    other fields as they are; the form keeps one entry per field name. *)
Theorem finish_handler_updates_one_field (name other : string)
    (es : list ErrorEntry) (prev : FormErrors) :
  let next := onValidationFinish (onValidationFinish_of name) es prev in
  get name next = Some es
  /\ (other <> name -> get other next = get other prev)
  /\ (NoDup (keys prev) -> NoDup (keys next)).
Proof.
  simpl. split; [apply get_set_same |].
  split; [apply get_set_other | apply NoDup_keys_set].
Qed.

Lemma finish_handler_updates_one_field_witness :
  let prev := [("email", [entry "isEmail" "Incorrect email address"]);
               ("username", [])] in
  let next := onValidationFinish (onValidationFinish_of "email") [] prev in
  "username" <> "email"
  /\ NoDup (keys prev)
  /\ get "email" next = Some []
  /\ get "username" next = Some []
  /\ NoDup (keys next).
Proof.
  intros prev next.
  assert (Hne : "username" <> "email") by discriminate.
  assert (Hnd : NoDup (keys prev)).
  { repeat constructor; simpl; intuition discriminate. }
  destruct (finish_handler_updates_one_field "email" "username" [] prev)
    as (Hsame & Hother & Hkeys).
  split; [exact Hne |]. split; [exact Hnd |]. split; [exact Hsame |].
  split; [exact (eq_trans (Hother Hne) eq_refl) | exact (Hkeys Hnd)].
Defined.

(** X11.  [SubmitButton] finds all inputs valid exactly when the error list
    of every field of the form is empty, and then no input has a message
    to show. *)
Theorem submit_enabled_iff_no_field_has_errors (errors : FormErrors) :
  (isAllInputsValid errors = true
   <-> forall name es, In (name, es) errors -> es = [])
  /\ (isAllInputsValid errors = true ->
      forall name, validationErrorMessage errors name = None).
Proof.
  assert (Hiff : isAllInputsValid errors = true
                 <-> forall name es, In (name, es) errors -> es = []).
  { rewrite all_valid_iff, Forall_forall. split.
    - intros H name es Hin. exact (H (name, es) Hin).
    - intros H [name es] Hin. exact (H name es Hin). }
  split; [exact Hiff |].
  intros Hv name. unfold validationErrorMessage.
  destruct (get name errors) as [[| e es] |] eqn:Hg; try reflexivity.
  exfalso.
  assert (Hin : In (name, e :: es) errors).
  { clear Hv Hiff. induction errors as [| [k v] rest IH]; simpl in *;
      [discriminate |].
    destruct (String.eqb_spec k name) as [-> | _].
    - injection Hg as ->. left. reflexivity.
    - right. apply IH. exact Hg. }
  apply Hiff in Hin; [discriminate | exact Hv].
Qed.

Lemma submit_enabled_iff_no_field_has_errors_witness :
  let clean := [("email", []); ("password", [])] in
  let dirty := [("email", []);
                ("password", [entry "hasLength" "Should be exactly 8 symbols"])]
  in
  isAllInputsValid clean = true
  /\ validationErrorMessage clean "password" = None
  /\ isAllInputsValid dirty = false
  /\ validationErrorMessage dirty "password"
     = Some "Should be exactly 8 symbols".
Proof.
  intros clean dirty.
  split; [reflexivity |].
  split; [exact (proj2 (submit_enabled_iff_no_field_has_errors clean)
                   eq_refl "password") |].
  split; reflexivity.
Defined.

(** X12.  A validator that [initValidator] made from a rule object whose
    keys are rule names is only ever sent [validate()], on blur.  Whatever
    the values of the rules, the language and the values the user leaves in
    the field, its error list stays empty; after the first blur the form
    holds the empty list under the name of the field, the field is marked
    "Valid", no message is shown for it, and a form that had all its inputs
    valid still has. *)
Theorem blur_never_reports (currentLanguage : Language) (name : string)
    (input : HTMLInputElement) (rules : rule_object)
    (v : InputValidator FormErrors)
    (errors0 : FormErrors) (typed : list string) :
  initValidator currentLanguage name input rules = Some v ->
  let h0 := {| this := v; world := errors0 |} in
  let h := blurs typed h0 in
  errors (this h) = []
  /\ (typed <> [] ->
      world h = set name [] errors0
      /\ marker (this h) = Some "Valid"
      /\ validationErrorMessage (world h) name = None
      /\ (isAllInputsValid errors0 = true ->
          isAllInputsValid (world h) = true)).
Proof.
  intros Hv h0 h. unfold initValidator in Hv.
  destruct (known_keys rules); [| discriminate]. injection Hv as Hv.
  assert (Hu : untouched name h0).
  { subst v. repeat split. discriminate. }
  destruct (blurs_untouched name typed h0 Hu) as [(He & _) Hrest].
  split; [exact He |]. intros Hne.
  destruct (Hrest Hne) as [Hw Hm]. fold h in Hw, Hm.
  split; [exact Hw |]. split; [exact Hm |]. rewrite Hw. simpl. split.
  - unfold validationErrorMessage. rewrite get_set_same. reflexivity.
  - apply all_valid_set.
Qed.

(** A user name of digits under [{ hasLength: { min: 8 }, isAlpha: true }]. *)
Lemma blur_never_reports_witness :
  let rules := [ ("hasLength",
                  Length {| min := Some 8; max := None; exact := None |});
                 ("isAlpha", Prim (Js.Bool true)) ] in
  let input := {| value := Js.Str ""; dataset_isValid := None |} in
  exists v,
    initValidator LangEN "username" input rules = Some v
    /\ ["123"] <> []
    /\ (let h := blurs ["123"] {| this := v; world := [] |} in
        field_string (this h) = Some "123"
        /\ world h = [("username", [])]
        /\ marker (this h) = Some "Valid"
        /\ isAllInputsValid (world h) = true).
Proof.
  intros rules input.
  assert (Hne : ["123"] <> []) by discriminate.
  eexists. split; [reflexivity |]. split; [exact Hne |].
  destruct (blur_never_reports LangEN "username" input rules _ []
              ["123"] eq_refl) as [_ Hrest].
  destruct (Hrest Hne) as (Hw & Hm & _ & Hall).
  split; [reflexivity |].
  split; [exact Hw |]. split; [exact Hm | exact (Hall eq_refl)].
Defined.

(** X13.  After a run of change events the value map holds, for each field
    name, the value of the latest event of that name, and for a name
    without an event what it held before; it keeps one entry per name. *)
Theorem handleChange_last_write_wins (events : list ChangeEvent)
    (values : dict string) (name : string) :
  get name (handleChanges events values)
  = match last_change name events with
    | Some v => Some v
    | None => get name values
    end
  /\ (NoDup (keys values) -> NoDup (keys (handleChanges events values))).
Proof.
  unfold handleChanges, last_change. split.
  - induction events as [| e events IH] using rev_ind; [reflexivity |].
    rewrite fold_left_app, rev_app_distr. simpl.
    unfold handleChange at 1.
    destruct (String.eqb_spec (target_name e) name) as [<- | Hne].
    + apply get_set_same.
    + rewrite get_set_other by congruence. exact IH.
  - revert values. induction events as [| e events IH]; intros values H;
      simpl; [exact H |].
    apply IH. apply NoDup_keys_set. exact H.
Qed.

Lemma handleChange_last_write_wins_witness :
  let events := [ {| target_name := "email"; target_value := "a" |};
                  {| target_name := "password"; target_value := "x" |};
                  {| target_name := "email"; target_value := "a@b.c" |} ] in
  NoDup (keys (@nil (string * string)))
  /\ get "email" (handleChanges events []) = Some "a@b.c"
  /\ get "username" (handleChanges events []) = None
  /\ NoDup (keys (handleChanges events [])).
Proof.
  intros events.
  assert (Hnd : NoDup (keys (@nil (string * string)))) by constructor.
  split; [exact Hnd |].
  split; [exact (proj1 (handleChange_last_write_wins events [] "email")) |].
  split; [exact (proj1 (handleChange_last_write_wins events [] "username")) |].
  exact (proj2 (handleChange_last_write_wins events [] "email") Hnd).
Defined.

(** X14.  Clicks on the label of the password input alternate: from the
    mounted input, [n] clicks leave the password visible exactly when [n]
    is odd, with [type] "text" then and "password" otherwise.  From any
    [type] one click leaves [type] and [isPasswordVisible] in step, and
    while the ref is [null] a click does nothing. *)
Theorem password_clicks_alternate (n : nat) (st : PasswordState) :
  clicks n mounted
  = {| passwordField := Some (if Nat.odd n then "text" else "password");
       isPasswordVisible := Nat.odd n |}
  /\ (passwordField st <> None ->
      let st' := togglePasswordVisibility st in
      (passwordField st' = Some "text" /\ isPasswordVisible st' = true)
      \/ (passwordField st' = Some "password"
          /\ isPasswordVisible st' = false))
  /\ (passwordField st = None -> clicks n st = st).
Proof.
  split; [| split].
  - assert (H : forall k,
               clicks k mounted
               = {| passwordField :=
                      Some (if Nat.odd k then "text" else "password");
                    isPasswordVisible := Nat.odd k |}
               /\ clicks k (togglePasswordVisibility mounted)
                  = {| passwordField :=
                         Some (if Nat.odd k then "password" else "text");
                       isPasswordVisible := negb (Nat.odd k) |}).
    { induction k as [| k [IH1 IH2]]; [split; reflexivity |].
      rewrite Nat.odd_succ, <- Nat.negb_odd.
      split.
      - simpl. rewrite IH2. destruct (Nat.odd k); reflexivity.
      - change (clicks (S k) (togglePasswordVisibility mounted))
          with (clicks k mounted).
        rewrite IH1. destruct (Nat.odd k); reflexivity. }
    apply H.
  - unfold togglePasswordVisibility, revealPassword, hidePassword.
    destruct st as [[type |] visible]; simpl; [| contradiction].
    intros _. destruct (String.eqb type "password"); simpl; auto.
  - intros Hnull. induction n as [| n IH]; [reflexivity |].
    simpl. unfold togglePasswordVisibility. rewrite Hnull. exact IH.
Qed.

Lemma password_clicks_alternate_witness :
  let overridden := {| passwordField := Some "email";
                       isPasswordVisible := false |} in
  passwordField overridden <> None
  /\ clicks 3 mounted
     = {| passwordField := Some "text"; isPasswordVisible := true |}
  /\ togglePasswordVisibility overridden = mounted.
Proof.
  intros overridden.
  assert (Hne : passwordField overridden <> None) by discriminate.
  destruct (password_clicks_alternate 3 overridden) as (H3 & _ & _).
  split; [exact Hne |]. split; [exact H3 | reflexivity].
Defined.

End FormProperties.
